(** * semver-tag-sync-action: rolling-tag synchronisation

    A shallow embedding of the Go sources of the action

    - the semantic-version parser ([ParseSemVer], [MajorTag], [MinorTag]),
    - the helpers [extractTagFromRef] and [parseRepository],
    - the configuration check [Validate],
    - the orchestrator [Run] and the per-tag reconciliation [syncTag],

    followed by the properties established about them.  Go strings are byte
    sequences and are modelled by [string] (a list of 8-bit characters);
    nil-able pointers and the [error] interface are options. *)

From Stdlib Require Import String Ascii List Bool Arith ZArith Lia.
From stdpp Require Import base option strings list gmap.

Local Open Scope string_scope.
Local Open Scope list_scope.

#[local] Arguments String.append !s1 s2 : simpl nomatch.

(* ===================================================================== *)
(** * Strings *)
(* ===================================================================== *)

Module strings.

(** [strings.HasPrefix(s, prefix)]. *)
Fixpoint HasPrefix (s prefix : string) {struct prefix} : bool :=
  match prefix with
  | EmptyString => true
  | String p prefix' =>
      match s with
      | EmptyString => false
      | String c s' => if Ascii.eqb c p then HasPrefix s' prefix' else false
      end
  end.

(** Drops the first [n] bytes: the Go slice expression [s[n:]]. *)
Fixpoint slice_from (n : nat) (s : string) : string :=
  match n with
  | O => s
  | S n' => match s with
            | EmptyString => EmptyString
            | String _ s' => slice_from n' s'
            end
  end.

(** Keeps the first [n] bytes: the Go slice expression [s[:n]]. *)
Fixpoint slice_to (n : nat) (s : string) : string :=
  match n with
  | O => EmptyString
  | S n' => match s with
            | EmptyString => EmptyString
            | String c s' => String c (slice_to n' s')
            end
  end.

(** [strings.TrimPrefix(s, prefix)]: [s] without the leading [prefix], or
    [s] itself when it does not start with [prefix]. *)
Definition TrimPrefix (s prefix : string) : string :=
  if HasPrefix s prefix then slice_from (String.length prefix) s else s.

(** [strings.Split(s, sep)] for a one-byte separator, the only use in the
    sources ([strings.Split(repo, "/")]).  [cur] accumulates the current
    field; the result always has one more field than there are separators. *)
Fixpoint split_acc (sep : ascii) (cur : string) (s : string) : list string :=
  match s with
  | EmptyString => [cur]
  | String c s' =>
      if Ascii.eqb c sep then cur :: split_acc sep EmptyString s'
      else split_acc sep (cur +:+ String c EmptyString) s'
  end.

Definition Split (s : string) (sep : ascii) : list string :=
  split_acc sep EmptyString s.

End strings.

(* ===================================================================== *)
(** * Formatting and errors *)
(* ===================================================================== *)

Module fmt.

(** [fmt.Sprintf] restricted to the verb [%s] with string operands, which
    is all the tag and ref names of the sources need.  A verb without an
    operand prints Go's [%!s(MISSING)]. *)
Fixpoint Sprintf (format : string) (args : list string) : string :=
  match format with
  | EmptyString => EmptyString
  | String "%" (String "s" rest) =>
      match args with
      | a :: args' => a +:+ Sprintf rest args'
      | [] => "%!s(MISSING)" +:+ Sprintf rest []
      end
  | String c rest => String c (Sprintf rest args)
  end.

End fmt.

(** The Go [error] interface.  An error value is kept structured rather than
    rendered: [fmtError format args wrapped] is the value built by
    [fmt.Errorf(format, args..., wrapped)], whose string operands are [args]
    and whose [%w] operand (when the format has one) is [wrapped];
    [joinError errs] is the value built by [errors.Join];
    [errorString msg] is [errors.New(msg)], which also stands for the errors produced by the
    remote client. *)
#[local] Set Warnings "-register-all".

Inductive error : Type :=
| errorString (msg : string)
| fmtError (format : string) (args : list string) (wrapped : option error)
| joinError (errs : list error).

Module errors.

(** [errors.New(text)]. *)
Definition New (text : string) : error := errorString text.

(** [errors.Join(errs...)] on a slice of non-nil errors: nil when the slice
    is empty, otherwise one error holding all of them in order. *)
Definition Join (errs : list error) : option error :=
  match errs with
  | [] => None
  | _ => Some (joinError errs)
  end.

End errors.

(** The sentinel [context.Canceled]. *)
Definition context_Canceled : error := errorString "context canceled".

(* ===================================================================== *)
(** * Regular expressions *)
(* ===================================================================== *)

(** The fragment of Go's [regexp] syntax that [semverRegex] is written in,
    with the semantics of the [regexp] package: leftmost-first matching
    (the match a backtracking engine finds), greedy repetition, [^] and [$]
    without the [m] flag matching only at the two ends of the text, [\d]
    matching the ASCII digits, and [.] without the [s] flag matching any
    character but the line feed. *)
Module regexp.

(** One-character patterns. *)
Inductive class : Type :=
| Byte (c : ascii)            (* a literal character, escaped or not *)
| Digit                       (* \d *)
| AnyCharNotNL                (* .  *)
| OneOf (cs : list ascii).    (* [...] *)

Definition is_digit (c : ascii) : bool :=
  Nat.leb 48 (nat_of_ascii c) && Nat.leb (nat_of_ascii c) 57.

Definition is_newline (c : ascii) : bool := Ascii.eqb c "010"%char.

Definition class_match (k : class) (c : ascii) : bool :=
  match k with
  | Byte b => Ascii.eqb c b
  | Digit => is_digit c
  | AnyCharNotNL => negb (is_newline c)
  | OneOf cs => existsb (Ascii.eqb c) cs
  end.

Inductive Regexp : Type :=
| BeginText                           (* ^ *)
| EndText                             (* $ *)
| Char (k : class)
| Star (k : class)                    (* k*  greedy *)
| Plus (k : class)                    (* k+  greedy *)
| Quest (r : Regexp)                  (* r?  greedy *)
| Capture (i : nat) (r : Regexp)      (* (r), the i-th group *)
| Concat (r1 r2 : Regexp).

(** The text of each group that took part in the match. *)
Definition captures : Type := nat -> option string.

Definition no_captures : captures := fun _ => None.

Definition set_capture (i : nat) (text : string) (caps : captures) : captures :=
  fun j => if Nat.eqb j i then Some text else caps j.

(** A thread of the matcher is at byte offset [pos] of the text with [s]
    left to read; [k] is what remains to match after the current node.
    The first alternative that leads to an overall match wins. *)
Fixpoint star {R : Type} (c : class) (pos : nat) (s : string)
    (k : nat -> string -> option R) : option R :=
  match s with
  | String a s' =>
      if class_match c a then
        match star c (S pos) s' k with
        | Some m => Some m
        | None => k pos s
        end
      else k pos s
  | EmptyString => k pos s
  end.

Fixpoint run (r : Regexp) (pos : nat) (s : string) (caps : captures)
    (k : nat -> string -> captures -> option captures) : option captures :=
  match r with
  | BeginText => if Nat.eqb pos 0 then k pos s caps else None
  | EndText => match s with
               | EmptyString => k pos s caps
               | String _ _ => None
               end
  | Char c => match s with
              | String a s' => if class_match c a then k (S pos) s' caps else None
              | EmptyString => None
              end
  | Star c => star c pos s (fun p s' => k p s' caps)
  | Plus c => match s with
              | String a s' =>
                  if class_match c a
                  then star c (S pos) s' (fun p s' => k p s' caps)
                  else None
              | EmptyString => None
              end
  | Quest r' => match run r' pos s caps k with
                | Some m => Some m
                | None => k pos s caps
                end
  | Capture i r' =>
      run r' pos s caps
        (fun p s' caps' => k p s' (set_capture i (strings.slice_to (p - pos) s) caps'))
  | Concat r1 r2 =>
      run r1 pos s caps (fun p s' caps' => run r2 p s' caps' k)
  end.

(** [NumSubexp]: the number of capture groups. *)
Fixpoint NumSubexp (r : Regexp) : nat :=
  match r with
  | Capture i r' => Nat.max i (NumSubexp r')
  | Quest r' => NumSubexp r'
  | Concat r1 r2 => Nat.max (NumSubexp r1) (NumSubexp r2)
  | _ => 0
  end.

(** A match that starts at offset [pos], group 0 being the whole match. *)
Definition match_at (re : Regexp) (pos : nat) (s : string) : option captures :=
  run re pos s no_captures
    (fun p _ caps => Some (set_capture 0 (strings.slice_to (p - pos) s) caps)).

(** The leftmost match: start offsets are tried from left to right. *)
Fixpoint find (re : Regexp) (pos : nat) (s : string) : option captures :=
  match match_at re pos s with
  | Some m => Some m
  | None => match s with
            | String _ s' => find re (S pos) s'
            | EmptyString => None
            end
  end.

(** [re.FindStringSubmatch(s)]: nil ([None]) when there is no match,
    otherwise the text of the match followed by the text of each group,
    the empty string for a group that did not take part. *)
Definition FindStringSubmatch (re : Regexp) (s : string) : option (list string) :=
  match find re 0 s with
  | Some caps =>
      Some (List.map (fun i => default EmptyString (caps i))
                     (List.seq 0 (S (NumSubexp re))))
  | None => None
  end.

End regexp.

(* ===================================================================== *)
(** * Semantic versions *)
(* ===================================================================== *)

Import regexp.

(** The compiled pattern [semverRegex]: [^v(\d+)\.(\d+)\.(\d+)(S)?$], where
    the fourth group [S] is the class [[-+]] followed by a starred dot. *)
Definition semverRegex : Regexp :=
  Concat BeginText
 (Concat (Char (Byte "v"))
 (Concat (Capture 1 (Plus Digit))
 (Concat (Char (Byte "."))
 (Concat (Capture 2 (Plus Digit))
 (Concat (Char (Byte "."))
 (Concat (Capture 3 (Plus Digit))
 (Concat (Quest (Capture 4 (Concat (Char (OneOf ["-"; "+"]%char)) (Star AnyCharNotNL))))
         EndText))))))).

Record SemVer : Type := {
  Major : string;
  Minor : string;
  Patch : string;
  Suffix : string;
  Full : string;
  IsPrerelease : bool
}.

(** [ParseSemVer(tag)] returns [(nil, err)] or [(&SemVer{...}, nil)]. *)
Definition ParseSemVer (tag : string) : SemVer + error :=
  match FindStringSubmatch semverRegex tag with
  | None =>
      inr (fmtError "tag %q does not match semantic versioning format (expected vX.Y.Z)"
                    [tag] None)
  | Some matches =>
      let suffix :=
        if Nat.ltb 4 (List.length matches) then nth 4 matches EmptyString else EmptyString in
      let isPrerelease := strings.HasPrefix suffix "-" in
      inl {| Major := nth 1 matches EmptyString;
             Minor := nth 2 matches EmptyString;
             Patch := nth 3 matches EmptyString;
             Suffix := suffix;
             Full := tag;
             IsPrerelease := isPrerelease |}
  end.

Definition MajorTag (s : SemVer) : string :=
  fmt.Sprintf "v%s" [Major s].

Definition MinorTag (s : SemVer) : string :=
  fmt.Sprintf "v%s.%s" [Major s; Minor s].

(* ===================================================================== *)
(** * Configuration, refs and repositories *)
(* ===================================================================== *)

Record Config : Type := {
  GitHubToken : string;
  GitHubRepo : string;
  GitRef : string;
  CommitSHA : string;
  SyncMajor : bool;
  SyncMinor : bool;
  SkipPrereleases : bool;
  DryRun : bool;
  GitHubEnterpriseURL : string;
  LogLevel : string
}.

Definition is_empty (s : string) : bool :=
  match s with
  | EmptyString => true
  | String _ _ => false
  end.

(** [(c *Config) Validate()]: nil ([None]) or the first failed check. *)
Definition Validate (c : Config) : option error :=
  if is_empty (GitHubToken c) then
    Some (fmtError "github token is required (set --github-token or GITHUB_TOKEN)" [] None)
  else if is_empty (GitHubRepo c) then
    Some (fmtError "github repo is required (set --github-repo or GITHUB_REPOSITORY)" [] None)
  else if is_empty (GitRef c) then
    Some (fmtError "git ref is required (set --git-ref or GITHUB_REF)" [] None)
  else if is_empty (CommitSHA c) then
    Some (fmtError "commit sha is required (set --commit-sha or GITHUB_SHA)" [] None)
  else if negb (SyncMajor c) && negb (SyncMinor c) then
    Some (fmtError "at least one of --sync-major or --sync-minor must be enabled" [] None)
  else None.

(** [extractTagFromRef(ref)]. *)
Definition extractTagFromRef (ref : string) : string + error :=
  if negb (strings.HasPrefix ref "refs/tags/") then
    inr (fmtError "ref %q is not a tag (expected refs/tags/...)" [ref] None)
  else inl (strings.TrimPrefix ref "refs/tags/").

(** [parseRepository(repo)]. *)
Definition parseRepository (repo : string) : (string * string) + error :=
  let parts := strings.Split repo "/" in
  if negb (Nat.eqb (List.length parts) 2)
     || is_empty (nth 0 parts EmptyString)
     || is_empty (nth 1 parts EmptyString)
  then inr (fmtError "invalid repository format %q (expected owner/repo)" [repo] None)
  else inl (nth 0 parts EmptyString, nth 1 parts EmptyString).

(* ===================================================================== *)
(** * The remote client *)
(* ===================================================================== *)

Module http.
Definition StatusNotFound : Z := 404.
End http.

Module github.

(** The ref a call returns; the action never reads it. *)
Record Reference : Type := { Reference_Ref : string; Reference_SHA : string }.

(** [github.Response] embeds the [*http.Response] it was built from, whose
    field [StatusCode] it promotes. *)
Record Response : Type := { StatusCode : Z }.

Record CreateRef : Type := { CreateRef_Ref : string; CreateRef_SHA : string }.

(** [Force] is a [*bool]. *)
Record UpdateRef : Type := { UpdateRef_SHA : string; UpdateRef_Force : option bool }.

Definition Ptr {A : Type} (v : A) : option A := Some v.

End github.

(** The handle of a [context.Context]; whether it is cancelled when a call
    is made is for the client to observe. *)
Inductive Context : Type :=
| Background
| WithTimeout (parent : Context) (nanoseconds : Z).

(** What a client method returns: a reference, a response and an error,
    each of which may be nil. *)
Definition Reply : Type :=
  (option github.Reference * option github.Response * option error)%type.

(** The interface [GitHubClient].  A method acts on the state [W] of the
    remote it talks to. *)
Record GitHubClient (W : Type) : Type := {
  GetRef : Context -> string -> string -> string -> W -> Reply * W;
  CreateRef : Context -> string -> string -> github.CreateRef -> W -> Reply * W;
  UpdateRef : Context -> string -> string -> string -> github.UpdateRef -> W -> Reply * W
}.

Arguments GetRef {W} _ _ _ _ _ _.
Arguments CreateRef {W} _ _ _ _ _ _.
Arguments UpdateRef {W} _ _ _ _ _ _ _.

(* ===================================================================== *)
(** * Observable behaviour *)
(* ===================================================================== *)

Module slog.

Inductive Level : Type := LevelDebug | LevelInfo | LevelWarn | LevelError.

(** An attribute of a log record.  [ErrorText key err] is
    [slog.String(key, err.Error())], the text being kept as the error it
    renders. *)
Inductive Attr : Type :=
| String (key value : string)
| Bool (key : string) (value : bool)
| ErrorText (key : string) (err : error).

End slog.

(** What a run does that can be seen from outside: the records it hands to
    the logger and the calls it makes on the client, in order. *)
Inductive Event : Type :=
| Log (level : slog.Level) (msg : string) (attrs : list slog.Attr)
| CallGetRef (owner repo ref : string)
| CallCreateRef (owner repo : string) (ref : github.CreateRef)
| CallUpdateRef (owner repo ref : string) (updateRef : github.UpdateRef).

Definition is_call (e : Event) : bool :=
  match e with
  | Log _ _ _ => false
  | _ => true
  end.

Definition calls (evs : list Event) : list Event := List.filter is_call evs.

Record State (W : Type) : Type := mkState {
  remote : W;
  trace : list Event
}.

Arguments mkState {W} _ _.
Arguments remote {W} _.
Arguments trace {W} _.

(** Computations of the action: they read and change the remote through the
    client and extend the trace. *)
Definition M (W A : Type) : Type := State W -> A * State W.

Definition ret {W A} (a : A) : M W A := fun st => (a, st).

Definition bind {W A B} (m : M W A) (f : A -> M W B) : M W B :=
  fun st => let (a, st') := m st in f a st'.

Notation "x <- m ;; k" := (bind m (fun x => k))
  (at level 20, m at level 99, k at level 200, only parsing).
Notation "m ;;; k" := (bind m (fun _ => k))
  (at level 100, k at level 200, only parsing, right associativity).

Definition emit {W} (e : Event) : M W unit :=
  fun st => (tt, mkState (remote st) (trace st ++ [e])).

(** A call on the client: it is recorded, then acts on the remote. *)
Definition call {W} (e : Event) (f : W -> Reply * W) : M W Reply :=
  fun st => let (r, w) := f (remote st) in (r, mkState w (trace st ++ [e])).

Record Action (W : Type) : Type := {
  client : GitHubClient W;
  config : Config
}.

Arguments client {W} _.
Arguments config {W} _.

Section Orchestrator.

Context {W : Type}.

Definition log_Debug (msg : string) (attrs : list slog.Attr) : M W unit :=
  emit (Log slog.LevelDebug msg attrs).
Definition log_Info (msg : string) (attrs : list slog.Attr) : M W unit :=
  emit (Log slog.LevelInfo msg attrs).
Definition log_Error (msg : string) (attrs : list slog.Attr) : M W unit :=
  emit (Log slog.LevelError msg attrs).

(** [(a *Action) syncTag(ctx, owner, repo, tag)]. *)
Definition syncTag (a : Action W) (ctx : Context) (owner repo tag : string)
  : M W (option error) :=
  let refName := fmt.Sprintf "tags/%s" [tag] in
  let fullRefName := fmt.Sprintf "refs/tags/%s" [tag] in
  log_Debug "Checking if tag exists"
    [slog.String "tag" tag; slog.String "ref_name" refName] ;;;
  reply <- call (CallGetRef owner repo refName)
                (GetRef (client a) ctx owner repo refName) ;;
  let '(_, resp, err) := reply in
  let tagExists := match err with None => true | Some _ => false end in
  (* what follows the existence check *)
  let sync : M W (option error) :=
    if DryRun (config a) then
      (if tagExists then
         log_Info "[dry-run] Would update tag"
           [slog.String "tag" tag; slog.String "commit_sha" (CommitSHA (config a))]
       else
         log_Info "[dry-run] Would create tag"
           [slog.String "tag" tag; slog.String "commit_sha" (CommitSHA (config a))]) ;;;
      ret None
    else if tagExists then
      log_Info "Updating tag"
        [slog.String "tag" tag; slog.String "commit_sha" (CommitSHA (config a))] ;;;
      let updateRef := {| github.UpdateRef_SHA := CommitSHA (config a);
                          github.UpdateRef_Force := github.Ptr true |} in
      reply <- call (CallUpdateRef owner repo refName updateRef)
                    (UpdateRef (client a) ctx owner repo refName updateRef) ;;
      match snd reply with
      | Some err => ret (Some (fmtError "failed to update tag %s: %w" [tag] (Some err)))
      | None =>
          log_Info "Successfully updated tag" [slog.String "tag" tag] ;;;
          ret None
      end
    else
      log_Info "Creating tag"
        [slog.String "tag" tag; slog.String "commit_sha" (CommitSHA (config a))] ;;;
      let createRef := {| github.CreateRef_Ref := fullRefName;
                          github.CreateRef_SHA := CommitSHA (config a) |} in
      reply <- call (CallCreateRef owner repo createRef)
                    (CreateRef (client a) ctx owner repo createRef) ;;
      match snd reply with
      | Some err => ret (Some (fmtError "failed to create tag %s: %w" [tag] (Some err)))
      | None =>
          log_Info "Successfully created tag" [slog.String "tag" tag] ;;;
          ret None
      end
  in
  match err with
  | Some e =>
      if match resp with
         | None => true
         | Some r => negb (Z.eqb (github.StatusCode r) http.StatusNotFound)
         end
      then
        log_Error "Failed to check if tag exists"
          [slog.String "tag" tag; slog.ErrorText "error" e] ;;;
        ret (Some (fmtError "failed to check if tag %s exists: %w" [tag] (Some e)))
      else
        log_Debug "Tag does not exist, will create" [slog.String "tag" tag] ;;;
        sync
  | None =>
      log_Debug "Tag already exists, will update" [slog.String "tag" tag] ;;;
      sync
  end.

(** [(a *Action) Run(ctx)]. *)
Definition Run (a : Action W) (ctx : Context) : M W (option error) :=
  let cfg := config a in
  log_Info "Starting semver tag sync action"
    [slog.String "repo" (GitHubRepo cfg); slog.String "ref" (GitRef cfg);
     slog.Bool "sync_major" (SyncMajor cfg); slog.Bool "sync_minor" (SyncMinor cfg);
     slog.Bool "skip_prereleases" (SkipPrereleases cfg);
     slog.Bool "dry_run" (DryRun cfg)] ;;;
  match extractTagFromRef (GitRef cfg) with
  | inr err =>
      log_Error "Failed to extract tag from ref"
        [slog.String "ref" (GitRef cfg); slog.ErrorText "error" err] ;;;
      ret (Some err)
  | inl tag =>
  log_Debug "Extracted tag from ref"
    [slog.String "tag" tag; slog.String "ref" (GitRef cfg)] ;;;
  match ParseSemVer tag with
  | inr err =>
      log_Error "Failed to parse semantic version"
        [slog.String "tag" tag; slog.ErrorText "error" err] ;;;
      ret (Some err)
  | inl semver =>
  log_Debug "Parsed semantic version"
    [slog.String "tag" (Full semver); slog.String "major" (Major semver);
     slog.String "minor" (Minor semver); slog.String "patch" (Patch semver);
     slog.Bool "is_prerelease" (IsPrerelease semver);
     slog.String "suffix" (Suffix semver)] ;;;
  if IsPrerelease semver && SkipPrereleases cfg then
    log_Info "Skipping prerelease tag"
      [slog.String "tag" (Full semver); slog.String "suffix" (Suffix semver)] ;;;
    ret None
  else
  log_Info "Processing tag"
    [slog.String "tag" (Full semver); slog.String "major" (Major semver);
     slog.String "minor" (Minor semver); slog.String "patch" (Patch semver)] ;;;
  match parseRepository (GitHubRepo cfg) with
  | inr err =>
      log_Error "Failed to parse repository"
        [slog.String "repo" (GitHubRepo cfg); slog.ErrorText "error" err] ;;;
      ret (Some err)
  | inl (owner, repo) =>
  log_Debug "Parsed repository"
    [slog.String "owner" owner; slog.String "repo" repo] ;;;
  let syncErrors : list error := [] in
  syncErrors <-
    (if SyncMajor cfg then
       let majorTag := MajorTag semver in
       log_Debug "Syncing major version tag"
         [slog.String "major_tag" majorTag; slog.String "commit_sha" (CommitSHA cfg)] ;;;
       res <- syncTag a ctx owner repo majorTag ;;
       match res with
       | Some err =>
           log_Error "Failed to sync major tag"
             [slog.String "tag" majorTag; slog.ErrorText "error" err] ;;;
           ret (syncErrors ++
                [fmtError "failed to sync major tag %s: %w" [majorTag] (Some err)])
       | None => ret syncErrors
       end
     else ret syncErrors) ;;
  syncErrors <-
    (if SyncMinor cfg then
       let minorTag := MinorTag semver in
       log_Debug "Syncing minor version tag"
         [slog.String "minor_tag" minorTag; slog.String "commit_sha" (CommitSHA cfg)] ;;;
       res <- syncTag a ctx owner repo minorTag ;;
       match res with
       | Some err =>
           log_Error "Failed to sync minor tag"
             [slog.String "tag" minorTag; slog.ErrorText "error" err] ;;;
           ret (syncErrors ++
                [fmtError "failed to sync minor tag %s: %w" [minorTag] (Some err)])
       | None => ret syncErrors
       end
     else ret syncErrors) ;;
  if Nat.ltb 0 (List.length syncErrors) then
    ret (errors.Join syncErrors)
  else
    log_Info "Semver tag sync completed successfully" [] ;;;
    ret None
  end end end.

End Orchestrator.

(* ===================================================================== *)
(** * Test doubles *)
(* ===================================================================== *)

(** [mockGitHubClient] of the action's tests: each method runs the function
    it was given, or a default (not found, created, updated). *)
Record mockGitHubClient (W : Type) : Type := {
  getRefFunc : option (Context -> string -> string -> string -> W -> Reply * W);
  createRefFunc : option (Context -> string -> string -> github.CreateRef -> W -> Reply * W);
  updateRefFunc :
    option (Context -> string -> string -> string -> github.UpdateRef -> W -> Reply * W)
}.

Arguments getRefFunc {W} _.
Arguments createRefFunc {W} _.
Arguments updateRefFunc {W} _.

Definition status (code : Z) : option github.Response :=
  Some {| github.StatusCode := code |}.

Definition empty_Reference : option github.Reference :=
  Some {| github.Reference_Ref := ""; github.Reference_SHA := "" |}.

Definition mock {W} (m : mockGitHubClient W) : GitHubClient W := {|
  GetRef := fun ctx owner repo ref w =>
    match getRefFunc m with
    | Some f => f ctx owner repo ref w
    | None => ((None, status http.StatusNotFound, Some (errors.New "not found")), w)
    end;
  CreateRef := fun ctx owner repo ref w =>
    match createRefFunc m with
    | Some f => f ctx owner repo ref w
    | None => ((empty_Reference, status 201, None), w)
    end;
  UpdateRef := fun ctx owner repo ref updateRef w =>
    match updateRefFunc m with
    | Some f => f ctx owner repo ref updateRef w
    | None => ((empty_Reference, status 200, None), w)
    end
|}.

(* ===================================================================== *)
(** * The command *)
(* ===================================================================== *)

(** The environment of the process: the variables that are set. *)
Module os.

(** [os.Getenv(key)]: the value of the variable, empty when it is not set. *)
Definition Getenv (env : gmap string string) (key : string) : string :=
  default EmptyString (env !! key).

End os.

(** [getEnvOrDefault(flagValue, envVar)]. *)
Definition getEnvOrDefault (env : gmap string string) (flagValue envVar : string)
  : string :=
  if negb (is_empty flagValue) then flagValue else os.Getenv env envVar.

(** [NewAction(client, config, log)].  The logger is not kept: the records
    an action hands to it go to the trace. *)
Definition NewAction {W} (client : GitHubClient W) (config : Config) : Action W :=
  {| client := client; config := config |}.

(** The variables [main] declares for its flags, with the values they hold
    once [flag.Parse()] has returned. *)
Record Flags : Type := {
  githubToken : string;
  githubRepo : string;
  gitRef : string;
  commitSHA : string;
  syncMajor : bool;
  syncMinor : bool;
  skipPrereleases : bool;
  dryRun : bool;
  githubEnterpriseURL : string;
  logLevel : string;
  showVersion : bool
}.

(** The defaults the flags are registered with. *)
Definition flag_defaults : Flags := {|
  githubToken := ""; githubRepo := ""; gitRef := ""; commitSHA := "";
  syncMajor := true; syncMinor := true; skipPrereleases := true; dryRun := false;
  githubEnterpriseURL := ""; logLevel := "info"; showVersion := false
|}.

(** The package variables [Version], [Revision], [BuildDate] and
    [GoVersion]. *)
Record Build : Type := {
  Version : string;
  Revision : string;
  BuildDate : string;
  GoVersion : string
}.

(** How the process ends: what [fmt.Printf] wrote and the exit status. *)
Record Exit : Type := {
  printed : string;
  code : Z
}.

(** The five minutes of the timeout, in nanoseconds. *)
Definition five_minutes : Z := 5 * 60 * 1000000000.

Definition version_format : string :=
  "semver-tag-sync-action" +:+ String "010"%char
  ("Version: %s %s" +:+ String "010"%char
  ("BuildDate: %s" +:+ String "010"%char
  ("%s" +:+ String "010"%char EmptyString))).

Section Command.

Context {W : Type}.

(** The two constructors of the go-github library that [NewGitHubClient]
    calls: [github.NewClient(nil).WithAuthToken(token)] and
    [client.WithEnterpriseURLs(baseURL, uploadURL)].  The client they build
    is seen through its three ref methods. *)
Variable NewClient_WithAuthToken : string -> GitHubClient W.
Variable WithEnterpriseURLs :
  GitHubClient W -> string -> string -> GitHubClient W + error.

(** [gitHubClientWrapper]: each method hands the call to the wrapped
    client. *)
Definition gitHubClientWrapper (c : GitHubClient W) : GitHubClient W := {|
  GetRef := fun ctx owner repo ref => GetRef c ctx owner repo ref;
  CreateRef := fun ctx owner repo ref => CreateRef c ctx owner repo ref;
  UpdateRef := fun ctx owner repo ref updateRef =>
    UpdateRef c ctx owner repo ref updateRef
|}.

(** [NewGitHubClient(token, enterpriseURL)]. *)
Definition NewGitHubClient (token enterpriseURL : string) : GitHubClient W + error :=
  if negb (is_empty enterpriseURL) then
    match WithEnterpriseURLs (NewClient_WithAuthToken token) enterpriseURL enterpriseURL with
    | inr err =>
        inr (fmtError "failed to create GitHub Enterprise client: %w" [] (Some err))
    | inl c => inl (gitHubClientWrapper c)
    end
  else inl (gitHubClientWrapper (NewClient_WithAuthToken token)).

(** [main()], from the values of the flags on.  [os.Exit(n)] and the
    return from [main] end the process with an [Exit]; the logger that
    [setupLogger] builds only decides which records are written, and the
    records handed to it go to the trace. *)
Definition main (build : Build) (flags : Flags) (env : gmap string string)
  : M W Exit :=
  if showVersion flags then
    ret {| printed := fmt.Sprintf version_format
                        [Revision build; Version build; BuildDate build; GoVersion build];
           code := 0 |}
  else
  log_Debug "Starting with configuration"
    [slog.String "version" (Version build); slog.String "revision" (Revision build);
     slog.String "build_date" (BuildDate build);
     slog.String "go_version" (GoVersion build);
     slog.String "log_level" (logLevel flags)] ;;;
  let githubToken := getEnvOrDefault env (githubToken flags) "GITHUB_TOKEN" in
  let githubRepo := getEnvOrDefault env (githubRepo flags) "GITHUB_REPOSITORY" in
  let gitRef := getEnvOrDefault env (gitRef flags) "GITHUB_REF" in
  let commitSHA := getEnvOrDefault env (commitSHA flags) "GITHUB_SHA" in
  let config := {|
    GitHubToken := githubToken;
    GitHubRepo := githubRepo;
    GitRef := gitRef;
    CommitSHA := commitSHA;
    SyncMajor := syncMajor flags;
    SyncMinor := syncMinor flags;
    SkipPrereleases := skipPrereleases flags;
    DryRun := dryRun flags;
    GitHubEnterpriseURL := githubEnterpriseURL flags;
    LogLevel := logLevel flags
  |} in
  match Validate config with
  | Some err =>
      log_Error "Configuration validation failed" [slog.ErrorText "error" err] ;;;
      ret {| printed := ""; code := 1 |}
  | None =>
  match NewGitHubClient (GitHubToken config) (GitHubEnterpriseURL config) with
  | inr err =>
      log_Error "Failed to create GitHub client" [slog.ErrorText "error" err] ;;;
      ret {| printed := ""; code := 1 |}
  | inl client =>
  let action := NewAction client config in
  let ctx := WithTimeout Background five_minutes in
  res <- Run action ctx ;;
  match res with
  | Some err =>
      log_Error "Action failed" [slog.ErrorText "error" err] ;;;
      ret {| printed := ""; code := 1 |}
  | None => ret {| printed := ""; code := 0 |}
  end end end.

End Command.

(* ===================================================================== *)
(** * Vocabulary of the statements *)
(* ===================================================================== *)

(** ** Scanning a string *)

(** Every byte of [s] satisfies [p]. *)
Fixpoint all_bytes (p : ascii -> bool) (s : string) : bool :=
  match s with
  | EmptyString => true
  | String c s' => p c && all_bytes p s'
  end.

(** The longest prefix of [s] whose bytes satisfy [p], and what follows. *)
Fixpoint take_while (p : ascii -> bool) (s : string) : string :=
  match s with
  | EmptyString => EmptyString
  | String c s' => if p c then String c (take_while p s') else EmptyString
  end.

Fixpoint drop_while (p : ascii -> bool) (s : string) : string :=
  match s with
  | EmptyString => EmptyString
  | String c s' => if p c then drop_while p s' else s
  end.

Definition is_sign (c : ascii) : bool := class_match (OneOf ["-"; "+"]%char) c.
Definition not_newline (c : ascii) : bool := class_match AnyCharNotNL c.

(** A non-empty run of digits and what follows it. *)
Definition scan_digits (s : string) : option (string * string) :=
  match take_while is_digit s with
  | EmptyString => None
  | String _ _ as ds => Some (ds, drop_while is_digit s)
  end.

Definition scan_byte (b : ascii) (s : string) : option string :=
  match s with
  | String c r => if Ascii.eqb c b then Some r else None
  | EmptyString => None
  end.

Definition scan_suffix (s : string) : option string :=
  match s with
  | EmptyString => Some EmptyString
  | String c r => if is_sign c && all_bytes not_newline r then Some s else None
  end.

(** A deterministic left-to-right scan, shown below to compute exactly what
    the backtracking matcher computes on [semverRegex]. *)
Definition scan_semver (tag : string) : option (list string) :=
  match scan_byte "v" tag with
  | None => None
  | Some s1 =>
  match scan_digits s1 with
  | None => None
  | Some (ma, r1) =>
  match scan_byte "." r1 with
  | None => None
  | Some s2 =>
  match scan_digits s2 with
  | None => None
  | Some (mi, r2) =>
  match scan_byte "." r2 with
  | None => None
  | Some s3 =>
  match scan_digits s3 with
  | None => None
  | Some (pa, r3) =>
  match scan_suffix r3 with
  | None => None
  | Some suf => Some [tag; ma; mi; pa; suf]
  end end end end end end end.

(** ** The grammar of accepted tags *)

(** A non-empty string of decimal digits. *)
Definition digit_string (s : string) : Prop :=
  s <> EmptyString /\ all_bytes is_digit s = true.

(** Empty, or any text that starts with [-] or [+]. *)
Definition suffix_form (s : string) : Prop :=
  s = EmptyString \/
  exists c r, s = String c r /\ (c = "-"%char \/ c = "+"%char).

(** No byte of [s] is a line feed. *)
Definition no_line_feed (s : string) : Prop :=
  all_bytes not_newline s = true.

(** [tag] is [v], three dot-separated digit strings and a suffix. *)
Definition semver_form (tag ma mi pa suf : string) : Prop :=
  tag = "v" +:+ ma +:+ "." +:+ mi +:+ "." +:+ pa +:+ suf /\
  digit_string ma /\ digit_string mi /\ digit_string pa /\ suffix_form suf.

Definition parse_error (tag : string) : error :=
  fmtError "tag %q does not match semantic versioning format (expected vX.Y.Z)"
           [tag] None.

(** ** Reconciliation *)

(** The names a rolling tag goes by in the calls. *)
Definition tag_ref (tag : string) : string := "tags/" +:+ tag.
Definition full_tag_ref (tag : string) : string := "refs/tags/" +:+ tag.

Definition create_at (tag sha : string) : github.CreateRef :=
  {| github.CreateRef_Ref := full_tag_ref tag; github.CreateRef_SHA := sha |}.

Definition force_to (sha : string) : github.UpdateRef :=
  {| github.UpdateRef_SHA := sha; github.UpdateRef_Force := Some true |}.

(** The error a failed call on [tag] is wrapped into. *)
Definition wrapped (format tag : string) (err : option error) : option error :=
  match err with
  | Some e => Some (fmtError format [tag] (Some e))
  | None => None
  end.

(** [st'] is [st] after some log records and no call. *)
Definition only_logged {W} (st st' : State W) : Prop :=
  remote st' = remote st /\
  exists evs, trace st' = trace st ++ evs /\ calls evs = [].

(** The refs of a remote: the commit each ref of each repository points at,
    keyed by owner, repository and full ref name ([refs/tags/v1]). *)
Abbreviation Refs := (gmap (string * string * string) string).

(** A client is faithful to the view [refs] of its remote's state when a
    lookup answers by the refs and leaves them alone (a missing ref is a
    404), a create of a missing ref and a forced update of an existing ref
    succeed, and each records the commit it was given. *)
Record Faithful {W : Type} (c : GitHubClient W) (refs : W -> Refs) : Prop := {
  lookup_present : forall ctx owner repo name w sha,
    refs w !! (owner, repo, "refs/" +:+ name) = Some sha ->
    exists ref resp w',
      GetRef c ctx owner repo name w = ((ref, resp, None), w') /\ refs w' = refs w;
  lookup_absent : forall ctx owner repo name w,
    refs w !! (owner, repo, "refs/" +:+ name) = None ->
    exists ref r e w',
      GetRef c ctx owner repo name w = ((ref, Some r, Some e), w') /\
      github.StatusCode r = http.StatusNotFound /\ refs w' = refs w;
  create_absent : forall ctx owner repo cr w,
    refs w !! (owner, repo, github.CreateRef_Ref cr) = None ->
    exists ref resp w',
      CreateRef c ctx owner repo cr w = ((ref, resp, None), w') /\
      refs w' = <[(owner, repo, github.CreateRef_Ref cr) := github.CreateRef_SHA cr]> (refs w);
  update_present : forall ctx owner repo name u w sha,
    refs w !! (owner, repo, "refs/" +:+ name) = Some sha ->
    github.UpdateRef_Force u = Some true ->
    exists ref resp w',
      UpdateRef c ctx owner repo name u w = ((ref, resp, None), w') /\
      refs w' = <[(owner, repo, "refs/" +:+ name) := github.UpdateRef_SHA u]> (refs w)
}.

(** An in-memory remote.  Without [Force] it refuses to move a ref to
    another commit. *)
Definition memory_client : GitHubClient Refs := {|
  GetRef := fun _ owner repo name w =>
    match w !! (owner, repo, "refs/" +:+ name) with
    | Some sha =>
        ((Some {| github.Reference_Ref := "refs/" +:+ name; github.Reference_SHA := sha |},
          status 200, None), w)
    | None => ((None, status http.StatusNotFound, Some (errors.New "Not Found")), w)
    end;
  CreateRef := fun _ owner repo cr w =>
    match w !! (owner, repo, github.CreateRef_Ref cr) with
    | Some _ => ((None, status 422, Some (errors.New "Reference already exists")), w)
    | None =>
        ((Some {| github.Reference_Ref := github.CreateRef_Ref cr;
                  github.Reference_SHA := github.CreateRef_SHA cr |},
          status 201, None),
         <[(owner, repo, github.CreateRef_Ref cr) := github.CreateRef_SHA cr]> w)
    end;
  UpdateRef := fun _ owner repo name u w =>
    match w !! (owner, repo, "refs/" +:+ name) with
    | None => ((None, status 422, Some (errors.New "Reference does not exist")), w)
    | Some old =>
        if match github.UpdateRef_Force u with Some true => true | _ => false end
           || String.eqb old (github.UpdateRef_SHA u)
        then
          ((Some {| github.Reference_Ref := "refs/" +:+ name;
                    github.Reference_SHA := github.UpdateRef_SHA u |},
            status 200, None),
           <[(owner, repo, "refs/" +:+ name) := github.UpdateRef_SHA u]> w)
        else ((None, status 422, Some (errors.New "Update is not a fast forward")), w)
    end
|}.

(** ** Concrete runs *)

(** The configuration the tests start from. *)
Definition test_config (ref : string) (skip dry : bool) : Config := {|
  GitHubToken := ""; GitHubRepo := "owner/repo"; GitRef := ref;
  CommitSHA := "abc123"; SyncMajor := true; SyncMinor := true;
  SkipPrereleases := skip; DryRun := dry;
  GitHubEnterpriseURL := ""; LogLevel := ""
|}.

Definition start : State unit := mkState tt [].

(** A remote with no tag: every lookup answers 404. *)
Definition absent_client : GitHubClient unit :=
  mock {| getRefFunc := None; createRefFunc := None; updateRefFunc := None |}.

(** A remote that has every tag. *)
Definition present_client : GitHubClient unit :=
  mock {| getRefFunc := Some (fun _ _ _ _ w => ((empty_Reference, status 200, None), w));
          createRefFunc := None; updateRefFunc := None |}.

(** A client whose context was cancelled: the lookup fails with
    [context.Canceled] and no response. *)
Definition cancelled_client : GitHubClient unit :=
  mock {| getRefFunc := Some (fun _ _ _ _ w => ((None, None, Some context_Canceled), w));
          createRefFunc := None; updateRefFunc := None |}.

Definition run_calls (c : GitHubClient unit) (cfg : Config) : option error * list Event :=
  let (res, st) := Run {| client := c; config := cfg |} Background start in
  (res, calls (trace st)).

Definition sv_1_2_3 : SemVer :=
  {| Major := "1"; Minor := "2"; Patch := "3"; Suffix := "";
     Full := "v1.2.3"; IsPrerelease := false |}.

Definition sv_1_2_3_beta : SemVer :=
  {| Major := "1"; Minor := "2"; Patch := "3"; Suffix := "-beta";
     Full := "v1.2.3-beta"; IsPrerelease := true |}.

(** Neither tag exists; a real run and a dry run. *)
Definition create_action : Action unit :=
  {| client := absent_client; config := test_config "refs/tags/v1.2.3" false false |}.
Definition dry_action : Action unit :=
  {| client := absent_client; config := test_config "refs/tags/v1.2.3" false true |}.

(** Both tags exist; a dry run. *)
Definition dry_present_action : Action unit :=
  {| client := present_client; config := test_config "refs/tags/v1.2.3" false true |}.

(** A prerelease is pushed and prereleases are skipped. *)
Definition skip_action : Action unit :=
  {| client := absent_client; config := test_config "refs/tags/v1.2.3-beta" true false |}.

(** Both tags exist and every update is refused ([TestActionRun_APIError]). *)
Definition forbidden_client : GitHubClient unit :=
  mock {| getRefFunc := Some (fun _ _ _ _ w => ((empty_Reference, status 200, None), w));
          createRefFunc := None;
          updateRefFunc :=
            Some (fun _ _ _ _ _ w => ((None, status 403, Some (errors.New "forbidden")), w)) |}.
Definition forbidden_action : Action unit :=
  {| client := forbidden_client; config := test_config "refs/tags/v1.2.3" false false |}.

(** The context is cancelled before the first lookup. *)
Definition cancelled_action : Action unit :=
  {| client := cancelled_client; config := test_config "refs/tags/v1.2.3" false false |}.

(** The in-memory remote, empty at first; a real run and a dry run. *)
Definition memory_action : Action Refs :=
  {| client := memory_client; config := test_config "refs/tags/v1.2.3" false false |}.
Definition memory_dry_action : Action Refs :=
  {| client := memory_client; config := test_config "refs/tags/v1.2.3" false true |}.
Definition empty_remote : State Refs := mkState ∅ [].

(** A tag of the [v<digits>.<digits>.<digits><suffix>] form whose suffix
    holds a line feed. *)
Definition line_feed_suffix : string := "-a" +:+ String "010"%char "b".
Definition line_feed_tag : string := "v1.2.3" +:+ line_feed_suffix.

(** ** Repositories and refs *)

(** No byte of [s] is a slash. *)
Definition not_slash (c : ascii) : bool := negb (Ascii.eqb c "/").
Definition no_slash (s : string) : Prop := all_bytes not_slash s = true.

(** The ref of a rolling tag in the refs of a remote. *)
Definition tag_key (owner repo tag : string) : string * string * string :=
  (owner, repo, full_tag_ref tag).

(** The refs once a rolling tag that is synchronised points at [sha]. *)
Definition upsert (enabled : bool) (key : string * string * string) (sha : string)
    (refs : Refs) : Refs :=
  if enabled then <[key := sha]> refs else refs.

(** The outcome of a reconciliation among those of a run. *)
Definition failures (format tag : string) (res : option error) : list error :=
  match res with
  | Some e => [fmtError format [tag] (Some e)]
  | None => []
  end.

(** ** Commands *)

(** The configuration [main] assembles from the flags and the environment. *)
Definition assembled (flags : Flags) (env : gmap string string) : Config := {|
  GitHubToken := getEnvOrDefault env (githubToken flags) "GITHUB_TOKEN";
  GitHubRepo := getEnvOrDefault env (githubRepo flags) "GITHUB_REPOSITORY";
  GitRef := getEnvOrDefault env (gitRef flags) "GITHUB_REF";
  CommitSHA := getEnvOrDefault env (commitSHA flags) "GITHUB_SHA";
  SyncMajor := syncMajor flags;
  SyncMinor := syncMinor flags;
  SkipPrereleases := skipPrereleases flags;
  DryRun := dryRun flags;
  GitHubEnterpriseURL := githubEnterpriseURL flags;
  LogLevel := logLevel flags
|}.

(** The exit with a status and nothing printed. *)
Definition exit (status : Z) : Exit := {| printed := ""; code := status |}.

(** ** Concrete commands *)

Definition test_build : Build :=
  {| Version := "v1.0.0"; Revision := "abcdef"; BuildDate := "2024-01-01";
     GoVersion := "go1.22" |}.

(** The environment of a workflow run on the push of [v1.2.3]. *)
Definition workflow_env : gmap string string :=
  {[ "GITHUB_TOKEN" := "token"; "GITHUB_REPOSITORY" := "owner/repo";
     "GITHUB_REF" := "refs/tags/v1.2.3"; "GITHUB_SHA" := "abc123" ]}.

(** A library whose clients talk to the in-memory remote. *)
Definition memory_library (token : string) : GitHubClient Refs := memory_client.
Definition memory_enterprise (c : GitHubClient Refs) (baseURL uploadURL : string)
  : GitHubClient Refs + error := inl c.

(** A library that refuses every enterprise URL. *)
Definition refusing_enterprise (c : GitHubClient Refs) (baseURL uploadURL : string)
  : GitHubClient Refs + error := inr (errors.New "invalid URL").

(** The flags of [--version] and of [--github-enterprise-url]. *)
Definition version_flags : Flags := {|
  githubToken := ""; githubRepo := ""; gitRef := ""; commitSHA := "";
  syncMajor := true; syncMinor := true; skipPrereleases := true; dryRun := false;
  githubEnterpriseURL := ""; logLevel := "info"; showVersion := true
|}.
Definition enterprise_flags : Flags := {|
  githubToken := ""; githubRepo := ""; gitRef := ""; commitSHA := "";
  syncMajor := true; syncMinor := true; skipPrereleases := true; dryRun := false;
  githubEnterpriseURL := "ghe.example.com"; logLevel := "info"; showVersion := false
|}.

(** Runs on a branch, on a malformed tag and on a malformed repository. *)
Definition branch_action : Action unit :=
  {| client := absent_client; config := test_config "refs/heads/main" false false |}.
Definition short_tag_action : Action unit :=
  {| client := absent_client; config := test_config "refs/tags/v1.2" false false |}.
Definition bad_repo_action : Action unit :=
  {| client := absent_client;
     config := {| GitHubToken := ""; GitHubRepo := "owner/repo/extra";
                  GitRef := "refs/tags/v1.2.3"; CommitSHA := "abc123";
                  SyncMajor := true; SyncMinor := true; SkipPrereleases := false;
                  DryRun := false; GitHubEnterpriseURL := ""; LogLevel := "" |} |}.

(** Runs with one switch on, or none. *)
Definition switches_config (major minor dry : bool) : Config := {|
  GitHubToken := ""; GitHubRepo := "owner/repo"; GitRef := "refs/tags/v1.2.3";
  CommitSHA := "abc123"; SyncMajor := major; SyncMinor := minor;
  SkipPrereleases := false; DryRun := dry;
  GitHubEnterpriseURL := ""; LogLevel := ""
|}.
Definition switches_action (major minor : bool) : Action unit :=
  {| client := absent_client; config := switches_config major minor false |}.
Definition memory_switches_action (major minor dry : bool) : Action Refs :=
  {| client := memory_client; config := switches_config major minor dry |}.

(** ** Traces *)

(** From [st] to [st'] the trace grew, by the calls [cs] among log records. *)
Definition traced {W} (st st' : State W) (cs : list Event) : Prop :=
  exists evs, trace st' = trace st ++ evs /\ calls evs = cs.

(** The lookup a dry reconciliation makes when its switch is on. *)
Definition lookups (enabled : bool) (owner repo tag : string) : list Event :=
  if enabled then [CallGetRef owner repo (tag_ref tag)] else [].

(* ===================================================================== *)
(** * Sanity checks: the tests of the repository *)
(* ===================================================================== *)

Example ParseSemVer_v1_2_3 :
  ParseSemVer "v1.2.3" =
  inl {| Major := "1"; Minor := "2"; Patch := "3"; Suffix := "";
         Full := "v1.2.3"; IsPrerelease := false |}.
Proof. reflexivity. Qed.

Example ParseSemVer_beta_build :
  ParseSemVer "v1.2.3-beta+build" =
  inl {| Major := "1"; Minor := "2"; Patch := "3"; Suffix := "-beta+build";
         Full := "v1.2.3-beta+build"; IsPrerelease := true |}.
Proof. reflexivity. Qed.

Example ParseSemVer_build_only :
  ParseSemVer "v10.20.30+build.123" =
  inl {| Major := "10"; Minor := "20"; Patch := "30"; Suffix := "+build.123";
         Full := "v10.20.30+build.123"; IsPrerelease := false |}.
Proof. reflexivity. Qed.

Example MajorMinor_v1_2_3 :
  let s := {| Major := "1"; Minor := "2"; Patch := "3"; Suffix := "";
              Full := "v1.2.3"; IsPrerelease := false |} in
  MajorTag s = "v1" /\ MinorTag s = "v1.2".
Proof. split; reflexivity. Qed.

Example extractTagFromRef_tag : extractTagFromRef "refs/tags/v1.2.3" = inl "v1.2.3".
Proof. reflexivity. Qed.

Example extractTagFromRef_branch :
  extractTagFromRef "refs/heads/main" =
  inr (fmtError "ref %q is not a tag (expected refs/tags/...)" ["refs/heads/main"] None).
Proof. reflexivity. Qed.

Example parseRepository_ok : parseRepository "owner/repo" = inl ("owner", "repo").
Proof. reflexivity. Qed.

Example parseRepository_bad :
  List.map (fun r => match parseRepository r with inl _ => true | inr _ => false end)
           ["owner/"; "/repo"; "ownerrepo"; "owner/repo/extra"; ""]
  = [false; false; false; false; false].
Proof. reflexivity. Qed.

Example TestActionRun_CreateNewTags :
  run_calls absent_client (test_config "refs/tags/v1.2.3" false false) =
  (None,
   [CallGetRef "owner" "repo" "tags/v1";
    CallCreateRef "owner" "repo"
      {| github.CreateRef_Ref := "refs/tags/v1"; github.CreateRef_SHA := "abc123" |};
    CallGetRef "owner" "repo" "tags/v1.2";
    CallCreateRef "owner" "repo"
      {| github.CreateRef_Ref := "refs/tags/v1.2"; github.CreateRef_SHA := "abc123" |}]).
Proof. vm_compute. reflexivity. Qed.

Example TestActionRun_UpdateExistingTags :
  run_calls present_client (test_config "refs/tags/v1.2.3" false false) =
  (None,
   [CallGetRef "owner" "repo" "tags/v1";
    CallUpdateRef "owner" "repo" "tags/v1"
      {| github.UpdateRef_SHA := "abc123"; github.UpdateRef_Force := Some true |};
    CallGetRef "owner" "repo" "tags/v1.2";
    CallUpdateRef "owner" "repo" "tags/v1.2"
      {| github.UpdateRef_SHA := "abc123"; github.UpdateRef_Force := Some true |}]).
Proof. vm_compute. reflexivity. Qed.

Example TestActionRun_DryRun :
  run_calls absent_client (test_config "refs/tags/v1.2.3" false true) =
  (None, [CallGetRef "owner" "repo" "tags/v1"; CallGetRef "owner" "repo" "tags/v1.2"]).
Proof. vm_compute. reflexivity. Qed.

Example TestActionRun_SkipPrereleases :
  run_calls absent_client (test_config "refs/tags/v1.2.3-beta" true false) = (None, []).
Proof. vm_compute. reflexivity. Qed.

Example TestActionRun_InvalidSemVer :
  run_calls absent_client (test_config "refs/tags/v1.2" false false) =
  (Some (parse_error "v1.2"), []).
Proof. vm_compute. reflexivity. Qed.

Example TestActionRun_APIError :
  run_calls forbidden_client (test_config "refs/tags/v1.2.3" false false) =
  (Some (joinError
     [fmtError "failed to sync major tag %s: %w" ["v1"]
        (Some (fmtError "failed to update tag %s: %w" ["v1"]
                 (Some (errors.New "forbidden"))));
      fmtError "failed to sync minor tag %s: %w" ["v1.2"]
        (Some (fmtError "failed to update tag %s: %w" ["v1.2"]
                 (Some (errors.New "forbidden"))))]),
   [CallGetRef "owner" "repo" "tags/v1";
    CallUpdateRef "owner" "repo" "tags/v1" (force_to "abc123");
    CallGetRef "owner" "repo" "tags/v1.2";
    CallUpdateRef "owner" "repo" "tags/v1.2" (force_to "abc123")]).
Proof. vm_compute. reflexivity. Qed.

Example syncTag_memory_twice :
  let once := snd (syncTag memory_action Background "owner" "repo" "v1" empty_remote) in
  let twice := snd (syncTag memory_action Background "owner" "repo" "v1" once) in
  remote once = {[ ("owner", "repo", "refs/tags/v1") := "abc123" ]} /\
  remote twice = remote once /\
  calls (trace twice) =
  [CallGetRef "owner" "repo" "tags/v1";
   CallCreateRef "owner" "repo" (create_at "v1" "abc123");
   CallGetRef "owner" "repo" "tags/v1";
   CallUpdateRef "owner" "repo" "tags/v1" (force_to "abc123")].
Proof. repeat split; vm_compute; reflexivity. Qed.

(* ===================================================================== *)
(** * Scanning lemmas for the matcher *)
(* ===================================================================== *)

Section Scanning.

Lemma take_drop_while p s : take_while p s +:+ drop_while p s = s.
Proof.
  induction s as [|c s IH]; [reflexivity|].
  cbn [take_while drop_while].
  destruct (p c); simpl; [now rewrite IH | reflexivity].
Qed.

Lemma all_bytes_take_while p s : all_bytes p (take_while p s) = true.
Proof.
  induction s as [|c s IH]; simpl; [reflexivity|].
  destruct (p c) eqn:E; simpl; [now rewrite E | reflexivity].
Qed.

Lemma drop_while_head p s c r : drop_while p s = String c r -> p c = false.
Proof.
  induction s as [|a s IH]; simpl; [discriminate|].
  destruct (p a) eqn:E; [exact IH|].
  intros H; injection H as -> _; exact E.
Qed.

Lemma take_while_app p a c r :
  all_bytes p a = true -> p c = false ->
  take_while p (a +:+ String c r) = a /\ drop_while p (a +:+ String c r) = String c r.
Proof.
  intros Ha Hc. induction a as [|x a IH]; simpl in *.
  - now rewrite Hc.
  - apply andb_prop in Ha as [Hx Ha]. rewrite Hx.
    destruct (IH Ha) as [-> ->]. now split.
Qed.

Lemma take_while_all p a :
  all_bytes p a = true -> take_while p a = a /\ drop_while p a = EmptyString.
Proof.
  intros Ha. induction a as [|x a IH]; simpl in *; [now split|].
  apply andb_prop in Ha as [Hx Ha]. rewrite Hx.
  destruct (IH Ha) as [-> ->]. now split.
Qed.

Lemma slice_to_length_app a b : strings.slice_to (String.length a) (a +:+ b) = a.
Proof. induction a as [|x a IH]; simpl; [now destruct b | now rewrite IH]. Qed.

Lemma slice_to_take_while p s :
  strings.slice_to (String.length (take_while p s)) s = take_while p s.
Proof.
  pose proof (slice_to_length_app (take_while p s) (drop_while p s)) as H.
  now rewrite take_drop_while in H.
Qed.

Lemma slice_to_length s : strings.slice_to (String.length s) s = s.
Proof. induction s as [|x s IH]; simpl; [reflexivity | now rewrite IH]. Qed.

Lemma length_app a b : String.length (a +:+ b) = String.length a + String.length b.
Proof. induction a as [|x a IH]; simpl; [reflexivity | now rewrite IH]. Qed.

Lemma length_take_drop p s :
  String.length (take_while p s) + String.length (drop_while p s) = String.length s.
Proof. rewrite <- length_app. now rewrite take_drop_while. Qed.

(** A greedy star commits to the longest run when the rest of the pattern
    cannot start with a byte of the class. *)
Lemma star_commit {R} c pos s (k : nat -> string -> option R) :
  (forall p a s', class_match c a = true -> k p (String a s') = None) ->
  star c pos s k =
  k (pos + String.length (take_while (class_match c) s)) (drop_while (class_match c) s).
Proof.
  intros Hk. revert pos. induction s as [|a s IH]; intros pos; simpl.
  - now rewrite Nat.add_0_r.
  - destruct (class_match c a) eqn:E; simpl.
    + rewrite IH, (Hk pos a s E). rewrite <- Nat.add_succ_comm.
      now destruct (k _ _).
    + now rewrite Nat.add_0_r.
Qed.

(** A greedy star followed by a pattern that only matches at the end of the
    text succeeds exactly when the class covers all that is left. *)
Lemma star_to_end {R} c pos s (k : nat -> string -> option R) :
  (forall p a s', k p (String a s') = None) ->
  star c pos s k =
  if all_bytes (class_match c) s then k (pos + String.length s) EmptyString else None.
Proof.
  intros Hk. revert pos. induction s as [|a s IH]; intros pos; simpl.
  - now rewrite Nat.add_0_r.
  - destruct (class_match c a) eqn:E; simpl.
    + rewrite IH, (Hk pos a s). rewrite <- Nat.add_succ_comm.
      destruct (all_bytes _ s); [now destruct (k _ _) | reflexivity].
    + apply Hk.
Qed.

(** A captured [\d+] in front of a rest that cannot start with a digit. *)
Lemma run_capture_digits i pos s caps k :
  (forall p a s' caps', is_digit a = true -> k p (String a s') caps' = None) ->
  run (Capture i (Plus Digit)) pos s caps k =
  match take_while is_digit s with
  | EmptyString => None
  | String _ _ as ds =>
      k (pos + String.length ds) (drop_while is_digit s) (set_capture i ds caps)
  end.
Proof.
  intros Hk. destruct s as [|a s]; simpl; [reflexivity|].
  destruct (is_digit a) eqn:E; [|reflexivity].
  rewrite star_commit by (intros; now apply Hk).
  change (class_match Digit) with is_digit.
  replace (S pos + String.length (take_while is_digit s) - pos)
    with (S (String.length (take_while is_digit s))) by lia.
  simpl strings.slice_to. rewrite slice_to_take_while.
  now rewrite <- Nat.add_succ_comm.
Qed.

(** The optional fourth group followed by the end of the text. *)
Lemma run_suffix_end pos s caps k :
  run (Concat (Quest (Capture 4 (Concat (Char (OneOf ["-"; "+"]%char))
                                        (Star AnyCharNotNL))))
              EndText) pos s caps k =
  match s with
  | EmptyString => k pos EmptyString caps
  | String c r =>
      if is_sign c && all_bytes not_newline r
      then k (pos + String.length s) EmptyString (set_capture 4 s caps)
      else None
  end.
Proof.
  destruct s as [|c r]; [reflexivity|].
  cbn [run]. fold (is_sign c).
  destruct (is_sign c); [|reflexivity].
  rewrite star_to_end by reflexivity.
  change (class_match AnyCharNotNL) with not_newline. simpl andb.
  destruct (all_bytes not_newline r); [|reflexivity].
  replace (S pos + String.length r - pos) with (String.length (String c r))
    by (simpl; lia).
  rewrite slice_to_length.
  replace (S pos + String.length r) with (pos + String.length (String c r))
    by (simpl; lia).
  now destruct (k _ _ _).
Qed.

Lemma sign_not_digit a : is_digit a = true -> is_sign a = false.
Proof.
  destruct a as [[] [] [] [] [] [] [] []]; vm_compute; congruence.
Qed.

Lemma dot_not_digit a : is_digit a = true -> Ascii.eqb a "."%char = false.
Proof.
  destruct a as [[] [] [] [] [] [] [] []]; vm_compute; congruence.
Qed.

End Scanning.

(* ===================================================================== *)
(** * What [semverRegex] matches *)
(* ===================================================================== *)

Section SemverScan.

Lemma find_semverRegex_later n s : find semverRegex (S n) s = None.
Proof. revert n. induction s as [|c s IH]; intros n; simpl; [reflexivity | apply IH]. Qed.

Lemma find_semverRegex s : find semverRegex 0 s = match_at semverRegex 0 s.
Proof.
  destruct s as [|c s]; cbn [find].
  - now destruct (match_at semverRegex 0 EmptyString).
  - destruct (match_at semverRegex 0 (String c s)); [reflexivity|].
    apply find_semverRegex_later.
Qed.

Lemma scan_digits_Some s ds r :
  scan_digits s = Some (ds, r) ->
  s = ds +:+ r /\ ds <> EmptyString /\ all_bytes is_digit ds = true /\
  (forall c r', r = String c r' -> is_digit c = false).
Proof.
  unfold scan_digits. intros H.
  assert (ds = take_while is_digit s /\ r = drop_while is_digit s) as [-> ->].
  { destruct (take_while is_digit s); [discriminate|]. now inversion H. }
  repeat split.
  - symmetry. apply take_drop_while.
  - intros E. rewrite E in H. discriminate.
  - apply all_bytes_take_while.
  - intros c r'. apply drop_while_head.
Qed.

Lemma scan_byte_Some b s r : scan_byte b s = Some r -> s = String b r.
Proof.
  destruct s as [|c s]; simpl; [discriminate|].
  destruct (Ascii.eqb c b) eqn:E; [|discriminate].
  apply Ascii.eqb_eq in E. intros H. now inversion H; subst.
Qed.

Lemma run_digits_dot i rest pos s caps k :
  run (Concat (Capture i (Plus Digit)) (Concat (Char (Byte ".")) rest)) pos s caps k =
  match scan_digits s with
  | None => None
  | Some (ds, r) =>
      match scan_byte "." r with
      | None => None
      | Some s' => run rest (S (pos + String.length ds)) s' (set_capture i ds caps) k
      end
  end.
Proof.
  change (run (Concat (Capture i (Plus Digit)) (Concat (Char (Byte ".")) rest)) pos s caps k)
    with (run (Capture i (Plus Digit)) pos s caps
            (fun p s' caps' => run (Concat (Char (Byte ".")) rest) p s' caps' k)).
  rewrite run_capture_digits.
  - unfold scan_digits. destruct (take_while is_digit s); [reflexivity|].
    destruct (drop_while is_digit s) as [|c r]; [reflexivity|].
    cbn [run class_match scan_byte]. now destruct (Ascii.eqb c ".").
  - intros p a s' caps' Ha. cbn [run class_match].
    now rewrite (dot_not_digit a Ha).
Qed.

Lemma run_digits_suffix_end pos s caps k :
  run (Concat (Capture 3 (Plus Digit))
         (Concat (Quest (Capture 4 (Concat (Char (OneOf ["-"; "+"]%char))
                                           (Star AnyCharNotNL))))
                 EndText)) pos s caps k =
  match scan_digits s with
  | None => None
  | Some (ds, r) =>
      match r with
      | EmptyString =>
          k (pos + String.length ds) EmptyString (set_capture 3 ds caps)
      | String c r' =>
          if is_sign c && all_bytes not_newline r'
          then k (pos + String.length ds + String.length r) EmptyString
                 (set_capture 4 r (set_capture 3 ds caps))
          else None
      end
  end.
Proof.
  match goal with
  | |- run (Concat ?a ?b) _ _ _ _ = _ =>
      change (run (Concat a b) pos s caps k)
        with (run a pos s caps (fun p s' caps' => run b p s' caps' k))
  end.
  rewrite run_capture_digits.
  - unfold scan_digits. destruct (take_while is_digit s); [reflexivity|].
    now rewrite run_suffix_end.
  - intros p a s' caps' Ha. rewrite run_suffix_end.
    now rewrite (sign_not_digit a Ha).
Qed.

Lemma run_begin_byte b rest s caps k :
  run (Concat BeginText (Concat (Char (Byte b)) rest)) 0 s caps k =
  match scan_byte b s with
  | Some r => run rest 1 r caps k
  | None => None
  end.
Proof.
  destruct s as [|c s]; [reflexivity|].
  cbn [run Nat.eqb class_match scan_byte]. now destruct (Ascii.eqb c b).
Qed.

Lemma FindStringSubmatch_semverRegex tag :
  FindStringSubmatch semverRegex tag = scan_semver tag.
Proof.
  unfold FindStringSubmatch. rewrite find_semverRegex.
  unfold match_at, semverRegex, scan_semver.
  rewrite run_begin_byte.
  destruct (scan_byte "v" tag) as [s1|] eqn:E0; [|reflexivity].
  rewrite run_digits_dot.
  destruct (scan_digits s1) as [[ma r1]|] eqn:E1; [|reflexivity].
  destruct (scan_byte "." r1) as [s2|] eqn:E2; [|reflexivity].
  rewrite run_digits_dot.
  destruct (scan_digits s2) as [[mi r2]|] eqn:E3; [|reflexivity].
  destruct (scan_byte "." r2) as [s3|] eqn:E4; [|reflexivity].
  rewrite run_digits_suffix_end.
  destruct (scan_digits s3) as [[pa r3]|] eqn:E5; [|reflexivity].
  apply scan_byte_Some in E0, E2, E4.
  apply scan_digits_Some in E1 as (E1 & _), E3 as (E3 & _), E5 as (E5 & _).
  assert (String.length tag =
          S (S (S (String.length ma) + String.length mi)
             + String.length pa) + String.length r3) as L.
  { rewrite E0, E1, E2, E3, E4, E5.
    cbn [String.length]. rewrite length_app. cbn [String.length].
    rewrite length_app. cbn [String.length]. rewrite length_app. lia. }
  unfold scan_suffix.
  destruct r3 as [|c r3'].
  - replace (S (S (1 + String.length ma) + String.length mi)
             + String.length pa - 0) with (String.length tag)
      by (rewrite L; simpl; lia).
    rewrite slice_to_length. reflexivity.
  - destruct (is_sign c && all_bytes not_newline r3'); [|reflexivity].
    replace (S (S (1 + String.length ma) + String.length mi)
             + String.length pa + String.length (String c r3') - 0)
      with (String.length tag) by (rewrite L; simpl; lia).
    rewrite slice_to_length. reflexivity.
Qed.

End SemverScan.

(* ===================================================================== *)
(** * The grammar of accepted tags *)
(* ===================================================================== *)

Section Grammar.

Lemma append_nil_r s : s +:+ EmptyString = s.
Proof. induction s as [|c s IH]; simpl; [reflexivity | now rewrite IH]. Qed.

Lemma is_sign_iff c : is_sign c = true <-> c = "-"%char \/ c = "+"%char.
Proof.
  unfold is_sign; simpl. split.
  - intros H. apply orb_prop in H as [H|H].
    + left. now apply Ascii.eqb_eq.
    + apply orb_prop in H as [H|H]; [|discriminate].
      right. now apply Ascii.eqb_eq.
  - intros [-> | ->]; reflexivity.
Qed.

Lemma scan_digits_app ds c r :
  digit_string ds -> is_digit c = false ->
  scan_digits (ds +:+ String c r) = Some (ds, String c r).
Proof.
  intros [Hne Hd] Hc. unfold scan_digits.
  destruct (take_while_app is_digit ds c r Hd Hc) as [-> ->].
  now destruct ds.
Qed.

Lemma scan_digits_all ds :
  digit_string ds -> scan_digits ds = Some (ds, EmptyString).
Proof.
  intros [Hne Hd]. unfold scan_digits.
  destruct (take_while_all is_digit ds Hd) as [-> ->].
  now destruct ds.
Qed.

Lemma scan_suffix_Some r suf :
  scan_suffix r = Some suf -> suf = r /\ suffix_form r /\ no_line_feed r.
Proof.
  destruct r as [|c r]; simpl.
  - intros H; inversion H. repeat split. now left.
  - destruct (is_sign c) eqn:Es; [|discriminate]. simpl.
    destruct (all_bytes not_newline r) eqn:En; [|discriminate].
    intros H; inversion H. repeat split.
    + right. exists c, r. split; [reflexivity | now apply is_sign_iff].
    + unfold no_line_feed. simpl. rewrite En.
      apply is_sign_iff in Es as [-> | ->]; reflexivity.
Qed.

Lemma scan_semver_Some tag l :
  scan_semver tag = Some l ->
  exists ma mi pa suf,
    semver_form tag ma mi pa suf /\ no_line_feed suf /\ l = [tag; ma; mi; pa; suf].
Proof.
  unfold scan_semver.
  destruct (scan_byte "v" tag) as [s1|] eqn:E0; [|discriminate].
  destruct (scan_digits s1) as [[ma r1]|] eqn:E1; [|discriminate].
  destruct (scan_byte "." r1) as [s2|] eqn:E2; [|discriminate].
  destruct (scan_digits s2) as [[mi r2]|] eqn:E3; [|discriminate].
  destruct (scan_byte "." r2) as [s3|] eqn:E4; [|discriminate].
  destruct (scan_digits s3) as [[pa r3]|] eqn:E5; [|discriminate].
  destruct (scan_suffix r3) as [suf|] eqn:E6; [|discriminate].
  intros H; inversion H; subst l; clear H.
  apply scan_byte_Some in E0, E2, E4.
  apply scan_digits_Some in E1 as (E1 & N1 & D1 & _).
  apply scan_digits_Some in E3 as (E3 & N3 & D3 & _).
  apply scan_digits_Some in E5 as (E5 & N5 & D5 & _).
  apply scan_suffix_Some in E6 as (-> & F & NL).
  exists ma, mi, pa, r3. repeat split; try assumption.
  rewrite E0, E1, E2, E3, E4, E5. reflexivity.
Qed.

Lemma scan_semver_form tag ma mi pa suf :
  semver_form tag ma mi pa suf -> no_line_feed suf ->
  scan_semver tag = Some [tag; ma; mi; pa; suf].
Proof.
  intros (E & Dma & Dmi & Dpa & F) NL. unfold scan_semver.
  rewrite E at 1. cbn [String.append scan_byte Ascii.eqb Bool.eqb].
  rewrite scan_digits_app by (assumption || reflexivity).
  cbn [scan_byte Ascii.eqb Bool.eqb String.append].
  rewrite scan_digits_app by (assumption || reflexivity).
  cbn [scan_byte Ascii.eqb Bool.eqb String.append].
  destruct F as [-> | (c & r & -> & Hc)].
  - rewrite append_nil_r, scan_digits_all by assumption. reflexivity.
  - assert (is_sign c = true) as Hs by now apply is_sign_iff.
    rewrite scan_digits_app; [| assumption |].
    + unfold scan_suffix. rewrite Hs.
      unfold no_line_feed in NL. simpl in NL.
      apply andb_prop in NL as [_ ->]. reflexivity.
    + destruct Hc as [-> | ->]; reflexivity.
Qed.

(** [ParseSemVer] in terms of the grammar. *)
Lemma ParseSemVer_inl tag sv :
  ParseSemVer tag = inl sv <->
  exists ma mi pa suf,
    semver_form tag ma mi pa suf /\ no_line_feed suf /\
    sv = {| Major := ma; Minor := mi; Patch := pa; Suffix := suf; Full := tag;
            IsPrerelease := strings.HasPrefix suf "-" |}.
Proof.
  unfold ParseSemVer. rewrite FindStringSubmatch_semverRegex. split.
  - destruct (scan_semver tag) as [l|] eqn:E; [|discriminate].
    apply scan_semver_Some in E as (ma & mi & pa & suf & Hf & NL & ->).
    cbn. intros H; inversion H.
    exists ma, mi, pa, suf. auto.
  - intros (ma & mi & pa & suf & Hf & NL & ->).
    rewrite (scan_semver_form _ _ _ _ _ Hf NL). reflexivity.
Qed.

Lemma ParseSemVer_inr tag e :
  ParseSemVer tag = inr e -> e = parse_error tag.
Proof.
  unfold ParseSemVer. destruct (FindStringSubmatch semverRegex tag).
  - discriminate.
  - intros H; now inversion H.
Qed.

(** The decomposition of a tag is unique. *)
Lemma semver_form_unique tag ma mi pa suf ma' mi' pa' suf' :
  semver_form tag ma mi pa suf -> no_line_feed suf ->
  semver_form tag ma' mi' pa' suf' -> no_line_feed suf' ->
  ma = ma' /\ mi = mi' /\ pa = pa' /\ suf = suf'.
Proof.
  intros H1 N1 H2 N2.
  pose proof (scan_semver_form _ _ _ _ _ H1 N1) as E1.
  pose proof (scan_semver_form _ _ _ _ _ H2 N2) as E2.
  rewrite E1 in E2. inversion E2. auto.
Qed.

Lemma Sprintf_major a : fmt.Sprintf "v%s" [a] = "v" +:+ a.
Proof. cbn. now rewrite append_nil_r. Qed.

Lemma Sprintf_minor a b : fmt.Sprintf "v%s.%s" [a; b] = "v" +:+ a +:+ "." +:+ b.
Proof. cbn. now rewrite append_nil_r. Qed.

End Grammar.
Lemma memory_client_Faithful : Faithful memory_client (fun w => w).
Proof.
  split.
  - intros ctx owner repo name w sha H.
    cbn [GetRef memory_client]. rewrite H. eauto.
  - intros ctx owner repo name w H.
    cbn [GetRef memory_client]. rewrite H. eexists _, _, _, _. eauto.
  - intros ctx owner repo cr w H.
    cbn [CreateRef memory_client]. rewrite H. eauto.
  - intros ctx owner repo name u w sha H HF.
    cbn [UpdateRef memory_client]. rewrite H, HF. cbn [orb]. eauto.
Qed.

(* ===================================================================== *)
(** * Properties of the parser *)
(* ===================================================================== *)
(** C3, as stated, fails: a tag made of [v], three digit strings and a
    suffix that starts with [-] is rejected when the suffix holds a line
    feed, since the dot of the pattern does not match it and [$] only
    matches at the end of the text. *)
Lemma ParseSemVer_rejects_line_feed :
  semver_form line_feed_tag "1" "2" "3" line_feed_suffix /\
  ParseSemVer line_feed_tag = inr (parse_error line_feed_tag).
Proof.
  split.
  - repeat split; try discriminate.
    right. exists "-"%char, ("a" +:+ String "010"%char "b"). split; [reflexivity | now left].
  - vm_compute. reflexivity.
Qed.

(** C3 (amended): [ParseSemVer] succeeds exactly on the tags made of a
    lowercase [v], three non-empty dot-separated digit strings and an
    optional suffix that starts with [-] or [+] and holds no line feed,
    anchored at both ends.  On such a tag the three digit strings are kept
    verbatim, whatever their length; on any other tag the result is an
    error and no version.  It rejects [1.2.3], [v1.2], [v1], the empty
    string and [v1.2.abc], and accepts [v01.02.03] as [01], [02], [03]. *)
Theorem ParseSemVer_grammar :
  (forall tag,
     (exists sv, ParseSemVer tag = inl sv) <->
     (exists ma mi pa suf, semver_form tag ma mi pa suf /\ no_line_feed suf)) /\
  (forall tag ma mi pa suf,
     semver_form tag ma mi pa suf -> no_line_feed suf ->
     ParseSemVer tag =
     inl {| Major := ma; Minor := mi; Patch := pa; Suffix := suf; Full := tag;
            IsPrerelease := strings.HasPrefix suf "-" |}) /\
  (forall tag,
     (forall sv, ParseSemVer tag <> inl sv) ->
     ParseSemVer tag = inr (parse_error tag)) /\
  Forall (fun tag => ParseSemVer tag = inr (parse_error tag))
         ["1.2.3"; "v1.2"; "v1"; ""; "v1.2.abc"] /\
  ParseSemVer "v01.02.03" =
  inl {| Major := "01"; Minor := "02"; Patch := "03"; Suffix := "";
         Full := "v01.02.03"; IsPrerelease := false |}.
Proof.
  split; [|split; [|split; [|split]]].
  - intros tag. split.
    + intros [sv H]. apply ParseSemVer_inl in H as (ma & mi & pa & suf & Hf & NL & _).
      now exists ma, mi, pa, suf.
    + intros (ma & mi & pa & suf & Hf & NL).
      eexists. apply ParseSemVer_inl. exists ma, mi, pa, suf. eauto.
  - intros tag ma mi pa suf Hf NL. apply ParseSemVer_inl.
    exists ma, mi, pa, suf. auto.
  - intros tag H. destruct (ParseSemVer tag) as [sv|e] eqn:E.
    + now destruct (H sv).
    + now rewrite (ParseSemVer_inr _ _ E).
  - repeat constructor.
  - reflexivity.
Qed.

Lemma ParseSemVer_grammar_witness :
  ParseSemVer "v007.10.123456789012345678901234567890-rc.1+build" =
  inl {| Major := "007"; Minor := "10"; Patch := "123456789012345678901234567890";
         Suffix := "-rc.1+build";
         Full := "v007.10.123456789012345678901234567890-rc.1+build";
         IsPrerelease := true |}.
Proof.
  apply (proj1 (proj2 ParseSemVer_grammar)
           "v007.10.123456789012345678901234567890-rc.1+build"
           "007" "10" "123456789012345678901234567890" "-rc.1+build").
  - repeat split; try discriminate.
    right. exists "-"%char, "rc.1+build". split; [reflexivity | now left].
  - reflexivity.
Defined.

(** C4: on an accepted tag, what follows the patch digits, from the first
    [-] or [+] to the end of the tag, is the suffix, kept as it is;
    [IsPrerelease] holds exactly when the suffix starts with [-] (so is not
    empty), and a suffix that starts with [+] gives [IsPrerelease = false]. *)
Theorem ParseSemVer_suffix (tag : string) (sv : SemVer) :
  ParseSemVer tag = inl sv ->
  semver_form tag (Major sv) (Minor sv) (Patch sv) (Suffix sv) /\
  Full sv = tag /\
  (IsPrerelease sv = true <-> exists r, Suffix sv = String "-"%char r) /\
  (forall r, Suffix sv = String "+"%char r -> IsPrerelease sv = false).
Proof.
  intros H. apply ParseSemVer_inl in H as (ma & mi & pa & suf & Hf & NL & ->).
  cbn [Major Minor Patch Suffix Full IsPrerelease].
  split; [exact Hf|]. split; [reflexivity|]. split; [split|].
  - destruct suf as [|c r]; cbn; [discriminate|].
    destruct (Ascii.eqb c "-") eqn:E; [|discriminate].
    apply Ascii.eqb_eq in E; subst c. intros _. now exists r.
  - intros [r ->]. reflexivity.
  - intros r ->. reflexivity.
Qed.

Lemma ParseSemVer_suffix_witness :
  semver_form "v1.2.3-pre+build.7" "1" "2" "3" "-pre+build.7" /\
  "v1.2.3-pre+build.7" = "v1.2.3-pre+build.7" /\
  (true = true <-> exists r, "-pre+build.7" = String "-"%char r) /\
  (forall r, "-pre+build.7" = String "+"%char r -> true = false).
Proof.
  exact (ParseSemVer_suffix "v1.2.3-pre+build.7"
           {| Major := "1"; Minor := "2"; Patch := "3"; Suffix := "-pre+build.7";
              Full := "v1.2.3-pre+build.7"; IsPrerelease := true |} eq_refl).
Defined.

(** C9: on an accepted tag, the major rolling tag is [v] followed by the
    major digits and the minor rolling tag is [v], the major digits, a dot
    and the minor digits, these being the digit strings of the tag itself;
    the patch digits are in neither. *)
Theorem rolling_tag_names (tag : string) (sv : SemVer) :
  ParseSemVer tag = inl sv ->
  MajorTag sv = "v" +:+ Major sv /\
  MinorTag sv = "v" +:+ Major sv +:+ "." +:+ Minor sv /\
  exists pa suf, semver_form tag (Major sv) (Minor sv) pa suf.
Proof.
  intros H. unfold MajorTag, MinorTag.
  rewrite Sprintf_major, Sprintf_minor. split; [reflexivity|]. split; [reflexivity|].
  apply ParseSemVer_inl in H as (ma & mi & pa & suf & Hf & _ & ->).
  cbn [Major Minor]. eauto.
Qed.

Lemma rolling_tag_names_witness :
  "v1" = "v" +:+ "1" /\
  "v1.2" = "v" +:+ "1" +:+ "." +:+ "2" /\
  exists pa suf, semver_form "v1.2.3" "1" "2" pa suf.
Proof.
  exact (rolling_tag_names "v1.2.3"
           {| Major := "1"; Minor := "2"; Patch := "3"; Suffix := "";
              Full := "v1.2.3"; IsPrerelease := false |} eq_refl).
Defined.

(* ===================================================================== *)
(** * Properties of the configuration check *)
(* ===================================================================== *)

Lemma is_empty_false s : is_empty s = false <-> s <> EmptyString.
Proof. destruct s; simpl; split; congruence. Qed.

(** C10: [Validate] returns nil exactly when the token, the repository, the
    ref and the commit are all non-empty and one of the two sync switches is
    on; an empty token is an error whatever the other fields are. *)
Theorem Validate_nil_iff :
  (forall c,
     Validate c = None <->
     GitHubToken c <> EmptyString /\ GitHubRepo c <> EmptyString /\
     GitRef c <> EmptyString /\ CommitSHA c <> EmptyString /\
     (SyncMajor c = true \/ SyncMinor c = true)) /\
  (forall c,
     GitHubToken c = EmptyString ->
     Validate c =
     Some (fmtError "github token is required (set --github-token or GITHUB_TOKEN)"
                    [] None)).
Proof.
  split.
  - intros c. unfold Validate. rewrite <- !is_empty_false.
    destruct (is_empty (GitHubToken c)), (is_empty (GitHubRepo c)),
      (is_empty (GitRef c)), (is_empty (CommitSHA c)),
      (SyncMajor c), (SyncMinor c); cbn; intuition congruence.
  - intros c H. unfold Validate. now rewrite H.
Qed.

Lemma Validate_nil_iff_witness :
  Validate (test_config "refs/tags/v1.2.3" true false) =
  Some (fmtError "github token is required (set --github-token or GITHUB_TOKEN)"
                 [] None).
Proof.
  exact (proj2 Validate_nil_iff (test_config "refs/tags/v1.2.3" true false) eq_refl).
Defined.

(* ===================================================================== *)
(** * Properties of the reconciliation *)
(* ===================================================================== *)

Section Reconciliation.

Context {W : Type}.
Implicit Types (a : Action W) (st : State W) (ctx : Context).

#[local] Arguments String.append : simpl never.
#[local] Arguments MajorTag : simpl never.
#[local] Arguments MinorTag : simpl never.

Lemma Sprintf_tag_ref tag : fmt.Sprintf "tags/%s" [tag] = tag_ref tag.
Proof. unfold tag_ref. cbn. now rewrite append_nil_r. Qed.

Lemma Sprintf_full_tag_ref tag : fmt.Sprintf "refs/tags/%s" [tag] = full_tag_ref tag.
Proof. unfold full_tag_ref. cbn. now rewrite append_nil_r. Qed.

Lemma full_tag_ref_refs tag : full_tag_ref tag = "refs/" +:+ tag_ref tag.
Proof. reflexivity. Qed.

Lemma only_logged_refl st : only_logged st st.
Proof. split; [reflexivity|]. exists []. now rewrite app_nil_r. Qed.

Lemma only_logged_self st : only_logged st (mkState (remote st) (trace st)).
Proof. split; [reflexivity|]. exists []. cbn. now rewrite app_nil_r. Qed.

Lemma only_logged_log st w t lvl msg attrs :
  only_logged st (mkState w t) ->
  only_logged st (mkState w (t ++ [Log lvl msg attrs])).
Proof.
  intros [Hr (evs & Ht & Hc)]. split; [exact Hr|].
  exists (evs ++ [Log lvl msg attrs]). cbn [trace] in *.
  rewrite Ht, <- app_assoc. split; [reflexivity|].
  unfold calls in *. rewrite List.filter_app, Hc. reflexivity.
Qed.

Ltac logged :=
  repeat (apply only_logged_log);
  first [apply only_logged_self | apply only_logged_refl].

(** Unfolds the plumbing of the monad, leaving the client calls. *)
Ltac steps :=
  cbv beta iota zeta delta [bind call emit ret log_Debug log_Info log_Error];
  cbn [remote trace fst snd].

(** The trace of a reconciliation is the given one, extended. *)
Ltac extends :=
  cbn [remote trace fst snd];
  repeat rewrite <- app_assoc; cbn [app]; reflexivity.


(** The three outcomes of the lookup in a run that is not a dry run. *)
Lemma syncTag_absent a ctx owner repo tag st ref r e w1 reply w2 :
  DryRun (config a) = false ->
  GetRef (client a) ctx owner repo (tag_ref tag) (remote st)
    = ((ref, Some r, Some e), w1) ->
  github.StatusCode r = http.StatusNotFound ->
  CreateRef (client a) ctx owner repo (create_at tag (CommitSHA (config a))) w1
    = (reply, w2) ->
  exists evs,
    syncTag a ctx owner repo tag st
      = (wrapped "failed to create tag %s: %w" tag (snd reply),
         mkState w2 (trace st ++ evs)) /\
    calls evs = [CallGetRef owner repo (tag_ref tag);
                 CallCreateRef owner repo (create_at tag (CommitSHA (config a)))].
Proof.
  intros Hdry Hget H404 Hcreate.
  unfold syncTag. rewrite Sprintf_tag_ref, Sprintf_full_tag_ref, Hdry.
  fold (create_at tag (CommitSHA (config a))).
  steps. rewrite Hget, H404. steps.
  rewrite Z.eqb_refl. cbn [negb]. steps. rewrite Hcreate.
  destruct reply as [[ref' resp'] [e'|]]; steps;
    (eexists; split; [extends | reflexivity]).
Qed.

Lemma syncTag_failed a ctx owner repo tag st ref resp e w1 :
  DryRun (config a) = false ->
  GetRef (client a) ctx owner repo (tag_ref tag) (remote st)
    = ((ref, resp, Some e), w1) ->
  (forall r, resp = Some r -> github.StatusCode r <> http.StatusNotFound) ->
  exists evs,
    syncTag a ctx owner repo tag st
      = (Some (fmtError "failed to check if tag %s exists: %w" [tag] (Some e)),
         mkState w1 (trace st ++ evs)) /\
    calls evs = [CallGetRef owner repo (tag_ref tag)].
Proof.
  intros Hdry Hget Hno.
  unfold syncTag. rewrite Sprintf_tag_ref, Sprintf_full_tag_ref, Hdry.
  steps. rewrite Hget. steps.
  destruct resp as [r|].
  - destruct (Z.eqb_spec (github.StatusCode r) http.StatusNotFound) as [E|E].
    + now destruct (Hno r eq_refl).
    + cbn [negb]. eexists. split; [extends | reflexivity].
  - eexists. split; [extends | reflexivity].
Qed.

Lemma syncTag_present a ctx owner repo tag st ref resp w1 reply w2 :
  DryRun (config a) = false ->
  GetRef (client a) ctx owner repo (tag_ref tag) (remote st)
    = ((ref, resp, None), w1) ->
  UpdateRef (client a) ctx owner repo (tag_ref tag) (force_to (CommitSHA (config a))) w1
    = (reply, w2) ->
  exists evs,
    syncTag a ctx owner repo tag st
      = (wrapped "failed to update tag %s: %w" tag (snd reply),
         mkState w2 (trace st ++ evs)) /\
    calls evs = [CallGetRef owner repo (tag_ref tag);
                 CallUpdateRef owner repo (tag_ref tag)
                               (force_to (CommitSHA (config a)))].
Proof.
  intros Hdry Hget Hupdate.
  unfold syncTag. rewrite Sprintf_tag_ref, Sprintf_full_tag_ref, Hdry.
  change {| github.UpdateRef_SHA := CommitSHA (config a);
            github.UpdateRef_Force := github.Ptr true |}
    with (force_to (CommitSHA (config a))).
  steps. rewrite Hget. steps. rewrite Hupdate.
  destruct reply as [[ref' resp'] [e'|]]; steps;
    (eexists; split; [extends | reflexivity]).
Qed.

(** C1 (amended): when the run is not a dry run, the one lookup decides
    the reconciliation.  An error with a 404 response is not a failure: the
    tag is absent and [refs/tags/<tag>] is created at the configured
    commit.  An error with another status, or with no response at all, ends
    the reconciliation with an error that wraps it and names the tag.  No
    error means the tag is present: it is updated to the configured commit
    with [Force] set, whatever the lookup returned.  A failure of the create
    or of the update is returned wrapped with the tag. *)
Theorem syncTag_classification a ctx owner repo tag st :
  DryRun (config a) = false ->
  (* absent *)
  (forall ref r e w1,
     GetRef (client a) ctx owner repo (tag_ref tag) (remote st)
       = ((ref, Some r, Some e), w1) ->
     github.StatusCode r = http.StatusNotFound ->
     forall reply w2,
     CreateRef (client a) ctx owner repo (create_at tag (CommitSHA (config a))) w1
       = (reply, w2) ->
     exists evs,
       syncTag a ctx owner repo tag st
         = (wrapped "failed to create tag %s: %w" tag (snd reply),
            mkState w2 (trace st ++ evs)) /\
       calls evs = [CallGetRef owner repo (tag_ref tag);
                    CallCreateRef owner repo (create_at tag (CommitSHA (config a)))]) /\
  (* failed *)
  (forall ref resp e w1,
     GetRef (client a) ctx owner repo (tag_ref tag) (remote st)
       = ((ref, resp, Some e), w1) ->
     (forall r, resp = Some r -> github.StatusCode r <> http.StatusNotFound) ->
     exists evs,
       syncTag a ctx owner repo tag st
         = (Some (fmtError "failed to check if tag %s exists: %w" [tag] (Some e)),
            mkState w1 (trace st ++ evs)) /\
       calls evs = [CallGetRef owner repo (tag_ref tag)]) /\
  (* present *)
  (forall ref resp w1,
     GetRef (client a) ctx owner repo (tag_ref tag) (remote st)
       = ((ref, resp, None), w1) ->
     forall reply w2,
     UpdateRef (client a) ctx owner repo (tag_ref tag) (force_to (CommitSHA (config a))) w1
       = (reply, w2) ->
     exists evs,
       syncTag a ctx owner repo tag st
         = (wrapped "failed to update tag %s: %w" tag (snd reply),
            mkState w2 (trace st ++ evs)) /\
       calls evs = [CallGetRef owner repo (tag_ref tag);
                    CallUpdateRef owner repo (tag_ref tag)
                                  (force_to (CommitSHA (config a)))]).
Proof.
  intros Hdry. split; [|split].
  - intros ref r e w1 Hget H404 reply w2 Hcreate.
    exact (syncTag_absent a ctx owner repo tag st ref r e w1 reply w2
             Hdry Hget H404 Hcreate).
  - intros ref resp e w1 Hget Hno.
    exact (syncTag_failed a ctx owner repo tag st ref resp e w1 Hdry Hget Hno).
  - intros ref resp w1 Hget reply w2 Hupdate.
    exact (syncTag_present a ctx owner repo tag st ref resp w1 reply w2
             Hdry Hget Hupdate).
Qed.

(** Every reconciliation makes the lookup. *)
Lemma syncTag_probes a ctx owner repo tag st :
  exists evs,
    trace (snd (syncTag a ctx owner repo tag st)) = trace st ++ evs /\
    In (CallGetRef owner repo (tag_ref tag)) evs.
Proof.
  unfold syncTag. rewrite Sprintf_tag_ref, Sprintf_full_tag_ref. steps.
  destruct (GetRef (client a) ctx owner repo (tag_ref tag) (remote st))
    as [[[ref resp] err] w1]; steps.
  destruct (DryRun (config a)), err as [e|]; steps;
    try destruct resp as [r|]; try destruct (negb _); steps.
  all: try match goal with
       | |- context [CreateRef ?c ?x ?o ?r ?cr ?w] =>
           destruct (CreateRef c x o r cr w) as [[[ref' resp'] [e'|]] w2]
       | |- context [UpdateRef ?c ?x ?o ?r ?n ?u ?w] =>
           destruct (UpdateRef c x o r n u w) as [[[ref' resp'] [e'|]] w2]
       end; steps.
  all: eexists; (split; [extends | cbn; auto]).
Qed.

(** C6: a run on a prerelease tag with [SkipPrereleases] on succeeds
    without a single call on the client (no lookup, no create, no update)
    and leaves the remote as it was. *)
Theorem Run_skips_prerelease a ctx st tag sv :
  extractTagFromRef (GitRef (config a)) = inl tag ->
  ParseSemVer tag = inl sv ->
  IsPrerelease sv = true ->
  SkipPrereleases (config a) = true ->
  exists evs,
    Run a ctx st = (None, mkState (remote st) (trace st ++ evs)) /\
    calls evs = [].
Proof.
  intros Href Hparse Hpre Hskip. unfold Run. cbv zeta.
  rewrite Href, Hparse, Hpre, Hskip. cbn [andb]. steps.
  eexists. split; [extends | reflexivity].
Qed.

(** C2: with both switches on, a run that gets as far as the
    reconciliations makes the major one first and then the minor one, from
    the state the major one left, whether or not the major one failed.  It
    returns an error exactly when one of them failed, and the error joins,
    in this order, one error per failed tag, each holding the name of its
    rolling tag and wrapping what went wrong. *)
Theorem Run_collects_failures a ctx st tag sv owner repo :
  SyncMajor (config a) = true ->
  SyncMinor (config a) = true ->
  extractTagFromRef (GitRef (config a)) = inl tag ->
  ParseSemVer tag = inl sv ->
  IsPrerelease sv && SkipPrereleases (config a) = false ->
  parseRepository (GitHubRepo (config a)) = inl (owner, repo) ->
  exists st0, only_logged st st0 /\
  let '(r1, st1) := syncTag a ctx owner repo (MajorTag sv) st0 in
  exists st1', only_logged st1 st1' /\
  let '(r2, st2) := syncTag a ctx owner repo (MinorTag sv) st1' in
  exists st3, only_logged st2 st3 /\
  Run a ctx st =
    (match r1, r2 with
     | None, None => None
     | Some e1, None =>
         Some (joinError
                 [fmtError "failed to sync major tag %s: %w" [MajorTag sv] (Some e1)])
     | None, Some e2 =>
         Some (joinError
                 [fmtError "failed to sync minor tag %s: %w" [MinorTag sv] (Some e2)])
     | Some e1, Some e2 =>
         Some (joinError
                 [fmtError "failed to sync major tag %s: %w" [MajorTag sv] (Some e1);
                  fmtError "failed to sync minor tag %s: %w" [MinorTag sv] (Some e2)])
     end, st3) /\
  (fst (Run a ctx st) = None <-> r1 = None /\ r2 = None).
Proof.
  intros Hmaj Hmin Href Hparse Hskip Hrepo. unfold Run. cbv zeta.
  rewrite Href, Hparse, Hskip, Hrepo, Hmaj, Hmin. steps.
  match goal with
  | |- context [syncTag a ctx owner repo (MajorTag sv) ?s] => exists s
  end.
  split; [logged|].
  destruct (syncTag a ctx owner repo (MajorTag sv) _) as [[e1|] st1]; steps.
  - match goal with
    | |- context [syncTag a ctx owner repo (MinorTag sv) ?s] => exists s
    end.
    split; [logged|].
    destruct (syncTag a ctx owner repo (MinorTag sv) _) as [[e2|] st2]; steps;
      (eexists; refine (conj _ (conj eq_refl _)); [logged|]);
      cbn [fst]; (split; [discriminate | intros [? ?]; discriminate]).
  - match goal with
    | |- context [syncTag a ctx owner repo (MinorTag sv) ?s] => exists s
    end.
    split; [logged|].
    destruct (syncTag a ctx owner repo (MinorTag sv) _) as [[e2|] st2]; steps;
      (eexists; refine (conj _ (conj eq_refl _)); [logged|]);
      cbn [fst]; split; [discriminate | intros [? ?]; discriminate | auto | auto].
Qed.

(** C5 (amended): the orchestrator does not tell a cancellation from any
    other failure.  In a run with both switches on that gets as far as the
    reconciliations, when the major one fails, with a cancellation error or
    any other, the minor one is still attempted (its lookup is made), and
    the run returns the joined error, whose first element wraps that very
    failure of the major reconciliation and whose other element, if any, is
    the wrapped failure of the minor one. *)
Theorem Run_after_cancellation a ctx st tag sv owner repo :
  SyncMajor (config a) = true ->
  SyncMinor (config a) = true ->
  extractTagFromRef (GitRef (config a)) = inl tag ->
  ParseSemVer tag = inl sv ->
  IsPrerelease sv && SkipPrereleases (config a) = false ->
  parseRepository (GitHubRepo (config a)) = inl (owner, repo) ->
  exists st0, only_logged st st0 /\
  forall e st1,
    syncTag a ctx owner repo (MajorTag sv) st0 = (Some e, st1) ->
    exists st1' evs post,
      only_logged st1 st1' /\
      trace (snd (syncTag a ctx owner repo (MinorTag sv) st1')) = trace st1' ++ evs /\
      In (CallGetRef owner repo (tag_ref (MinorTag sv))) evs /\
      trace (snd (Run a ctx st))
        = trace (snd (syncTag a ctx owner repo (MinorTag sv) st1')) ++ post /\
      fst (Run a ctx st)
        = Some (joinError
                  (fmtError "failed to sync major tag %s: %w" [MajorTag sv] (Some e)
                   :: failures "failed to sync minor tag %s: %w" (MinorTag sv)
                        (fst (syncTag a ctx owner repo (MinorTag sv) st1')))).
Proof.
  intros Hmaj Hmin Href Hparse Hskip Hrepo. unfold Run. cbv zeta.
  rewrite Href, Hparse, Hskip, Hrepo, Hmaj, Hmin. steps.
  match goal with
  | |- context [syncTag a ctx owner repo (MajorTag sv) ?s] => exists s
  end.
  split; [logged|].
  intros e st1 Hsync. rewrite Hsync. steps.
  match goal with
  | |- context [syncTag a ctx owner repo (MinorTag sv) ?s] =>
      exists s; destruct (syncTag_probes a ctx owner repo (MinorTag sv) s)
        as (evs & Hevs & Hin)
  end.
  exists evs.
  destruct (syncTag a ctx owner repo (MinorTag sv) _) as [[e2|] st2]; steps;
    eexists; (split; [logged|]); (split; [exact Hevs|]);
    (split; [exact Hin|]); cbn [fst snd trace];
    (split; [first [reflexivity | symmetry; apply app_nil_r] | reflexivity]).
Qed.

(** C8 (amended): when the run is not a dry run and the remote is
    faithful, reconciling a rolling tag twice in a row succeeds both times
    and ends both times with the ref present and pointing at the configured
    commit, the remote's refs after the second time being those after the
    first; the second time finds the tag present and makes the forced
    update. *)
Theorem syncTag_idempotent a (refs : W -> Refs) ctx owner repo tag st :
  Faithful (client a) refs ->
  DryRun (config a) = false ->
  exists st1 st2 evs,
    syncTag a ctx owner repo tag st = (None, st1) /\
    syncTag a ctx owner repo tag st1 = (None, st2) /\
    refs (remote st1) !! (owner, repo, full_tag_ref tag) = Some (CommitSHA (config a)) /\
    refs (remote st2) = refs (remote st1) /\
    trace st2 = trace st1 ++ evs /\
    calls evs = [CallGetRef owner repo (tag_ref tag);
                 CallUpdateRef owner repo (tag_ref tag) (force_to (CommitSHA (config a)))].
Proof.
  intros HF Hdry.
  (* a reconciliation that finds the tag present *)
  assert (forall s sha,
            refs (remote s) !! (owner, repo, full_tag_ref tag) = Some sha ->
            exists s' evs,
              syncTag a ctx owner repo tag s = (None, s') /\
              refs (remote s')
                = <[(owner, repo, full_tag_ref tag) := CommitSHA (config a)]> (refs (remote s)) /\
              trace s' = trace s ++ evs /\
              calls evs = [CallGetRef owner repo (tag_ref tag);
                           CallUpdateRef owner repo (tag_ref tag)
                                         (force_to (CommitSHA (config a)))]) as Present.
  { intros s sha Hs.
    destruct (lookup_present _ _ HF ctx owner repo (tag_ref tag) (remote s) sha Hs)
      as (ref & resp & w1 & Hget & Hw1).
    assert (refs w1 !! (owner, repo, "refs/" +:+ tag_ref tag) = Some sha) as Hs1
      by (rewrite Hw1; exact Hs).
    destruct (update_present _ _ HF ctx owner repo (tag_ref tag)
                (force_to (CommitSHA (config a))) w1 sha Hs1 eq_refl)
      as (ref' & resp' & w2 & Hupd & Hw2).
    destruct (syncTag_present a ctx owner repo tag s ref resp w1 _ _ Hdry Hget Hupd)
      as (evs & Hrun & Hcalls).
    eexists _, evs. split; [exact Hrun|]. cbn [remote trace].
    rewrite Hw2, Hw1. auto. }
  destruct (refs (remote st) !! (owner, repo, full_tag_ref tag)) as [sha|] eqn:Hst.
  - destruct (Present st sha Hst) as (st1 & evs1 & Hrun1 & Hrefs1 & _).
    assert (refs (remote st1) !! (owner, repo, full_tag_ref tag)
            = Some (CommitSHA (config a))) as H1
      by (rewrite Hrefs1; apply lookup_insert_eq).
    destruct (Present st1 _ H1) as (st2 & evs2 & Hrun2 & Hrefs2 & Ht2 & Hc2).
    exists st1, st2, evs2. repeat split; try assumption.
    rewrite Hrefs2. now apply insert_id.
  - destruct (lookup_absent _ _ HF ctx owner repo (tag_ref tag) (remote st) Hst)
      as (ref & r & e & w1 & Hget & H404 & Hw1).
    assert (refs w1 !! (owner, repo,
                        github.CreateRef_Ref (create_at tag (CommitSHA (config a)))) = None)
      as Hst1 by (rewrite Hw1; exact Hst).
    destruct (create_absent _ _ HF ctx owner repo _ w1 Hst1)
      as (ref' & resp' & w2 & Hcre & Hw2).
    destruct (syncTag_absent a ctx owner repo tag st ref r e w1 _ _ Hdry Hget H404 Hcre)
      as (evs1 & Hrun1 & _).
    cbn [snd wrapped] in Hrun1.
    assert (refs w2 !! (owner, repo, full_tag_ref tag) = Some (CommitSHA (config a)))
      as H1 by (rewrite Hw2; apply lookup_insert_eq).
    destruct (Present (mkState w2 (trace st ++ evs1)) _ H1)
      as (st2 & evs2 & Hrun2 & Hrefs2 & Ht2 & Hc2).
    exists (mkState w2 (trace st ++ evs1)), st2, evs2.
    repeat split; try assumption.
    rewrite Hrefs2. now apply insert_id.
Qed.

End Reconciliation.

(* ===================================================================== *)
(** * Witnesses and counterexamples of the reconciliation *)
(* ===================================================================== *)
(** C1, as stated, fails in a dry run: the lookup is answered by an error
    with a 404 response, or by no error, and neither a create nor an update
    follows. *)
Lemma syncTag_dry_run_issues_nothing :
  GetRef absent_client Background "owner" "repo" "tags/v1" tt
    = ((None, status http.StatusNotFound, Some (errors.New "not found")), tt) /\
  fst (syncTag dry_action Background "owner" "repo" "v1" start) = None /\
  calls (trace (snd (syncTag dry_action Background "owner" "repo" "v1" start)))
    = [CallGetRef "owner" "repo" "tags/v1"] /\
  GetRef present_client Background "owner" "repo" "tags/v1" tt
    = ((empty_Reference, status 200, None), tt) /\
  fst (syncTag dry_present_action Background "owner" "repo" "v1" start) = None /\
  calls (trace (snd (syncTag dry_present_action Background "owner" "repo" "v1" start)))
    = [CallGetRef "owner" "repo" "tags/v1"].
Proof. repeat split; vm_compute; reflexivity. Qed.

Lemma syncTag_classification_witness :
  exists evs,
    syncTag create_action Background "owner" "repo" "v1" start
      = (None, mkState tt evs) /\
    calls evs = [CallGetRef "owner" "repo" "tags/v1";
                 CallCreateRef "owner" "repo"
                   {| github.CreateRef_Ref := "refs/tags/v1";
                      github.CreateRef_SHA := "abc123" |}].
Proof.
  exact (proj1 (syncTag_classification create_action Background "owner" "repo" "v1"
                  start eq_refl)
           None {| github.StatusCode := 404 |} (errors.New "not found") tt
           eq_refl eq_refl (empty_Reference, status 201, None) tt eq_refl).
Defined.


Lemma Run_skips_prerelease_witness :
  exists evs,
    Run skip_action Background start = (None, mkState tt evs) /\ calls evs = [].
Proof.
  exact (Run_skips_prerelease skip_action Background start "v1.2.3-beta" sv_1_2_3_beta
           eq_refl eq_refl eq_refl eq_refl).
Defined.

Lemma Run_collects_failures_witness :
  exists st0, only_logged start st0 /\
  let '(r1, st1) :=
    syncTag forbidden_action Background "owner" "repo" (MajorTag sv_1_2_3) st0 in
  exists st1', only_logged st1 st1' /\
  let '(r2, st2) :=
    syncTag forbidden_action Background "owner" "repo" (MinorTag sv_1_2_3) st1' in
  exists st3, only_logged st2 st3 /\
  Run forbidden_action Background start =
    (match r1, r2 with
     | None, None => None
     | Some e1, None =>
         Some (joinError
                 [fmtError "failed to sync major tag %s: %w" [MajorTag sv_1_2_3] (Some e1)])
     | None, Some e2 =>
         Some (joinError
                 [fmtError "failed to sync minor tag %s: %w" [MinorTag sv_1_2_3] (Some e2)])
     | Some e1, Some e2 =>
         Some (joinError
                 [fmtError "failed to sync major tag %s: %w" [MajorTag sv_1_2_3] (Some e1);
                  fmtError "failed to sync minor tag %s: %w" [MinorTag sv_1_2_3] (Some e2)])
     end, st3) /\
  (fst (Run forbidden_action Background start) = None <-> r1 = None /\ r2 = None).
Proof.
  exact (Run_collects_failures forbidden_action Background start "v1.2.3" sv_1_2_3
           "owner" "repo" eq_refl eq_refl eq_refl eq_refl eq_refl eq_refl).
Defined.

(** C5, as stated, fails: the first lookup fails with [context.Canceled],
    so the major reconciliation fails with a cancellation error, and the
    lookup of the minor tag is made all the same; the run returns both
    failures joined. *)
Lemma Run_cancelled_major_then_minor :
  fst (syncTag cancelled_action Background "owner" "repo" "v1" start)
    = Some (fmtError "failed to check if tag %s exists: %w" ["v1"]
              (Some context_Canceled)) /\
  run_calls cancelled_client (test_config "refs/tags/v1.2.3" false false) =
  (Some (joinError
     [fmtError "failed to sync major tag %s: %w" ["v1"]
        (Some (fmtError "failed to check if tag %s exists: %w" ["v1"]
                 (Some context_Canceled)));
      fmtError "failed to sync minor tag %s: %w" ["v1.2"]
        (Some (fmtError "failed to check if tag %s exists: %w" ["v1.2"]
                 (Some context_Canceled)))]),
   [CallGetRef "owner" "repo" "tags/v1"; CallGetRef "owner" "repo" "tags/v1.2"]).
Proof. split; vm_compute; reflexivity. Qed.

Lemma Run_after_cancellation_witness :
  fst (Run cancelled_action Background start)
    = Some (joinError
        [fmtError "failed to sync major tag %s: %w" ["v1"]
           (Some (fmtError "failed to check if tag %s exists: %w" ["v1"]
                    (Some context_Canceled)));
         fmtError "failed to sync minor tag %s: %w" ["v1.2"]
           (Some (fmtError "failed to check if tag %s exists: %w" ["v1.2"]
                    (Some context_Canceled)))]) /\
  In (CallGetRef "owner" "repo" "tags/v1.2")
     (trace (snd (Run cancelled_action Background start))).
Proof.
  destruct (Run_after_cancellation cancelled_action Background start "v1.2.3" sv_1_2_3
              "owner" "repo" eq_refl eq_refl eq_refl eq_refl eq_refl eq_refl)
    as (st0 & _ & H).
  destruct (H (fmtError "failed to check if tag %s exists: %w" ["v1"]
                 (Some context_Canceled))
              (mkState (remote st0)
                 (((trace st0 ++
                    [Log slog.LevelDebug "Checking if tag exists"
                       [slog.String "tag" "v1"; slog.String "ref_name" "tags/v1"]]) ++
                   [CallGetRef "owner" "repo" "tags/v1"]) ++
                  [Log slog.LevelError "Failed to check if tag exists"
                     [slog.String "tag" "v1"; slog.ErrorText "error" context_Canceled]]))
              eq_refl)
    as (st1' & evs & post & _ & Hevs & Hin & Hpost & Hres).
  split.
  - exact Hres.
  - rewrite Hpost, Hevs. apply in_or_app. left. apply in_or_app. right. exact Hin.
Defined.

(** C8, as stated, fails in a dry run: reconciling twice succeeds twice,
    but the ref is still missing at the end, and the second time finds the
    tag absent and makes no update. *)
Lemma syncTag_twice_dry_run :
  fst (syncTag memory_dry_action Background "owner" "repo" "v1" empty_remote) = None /\
  fst (syncTag memory_dry_action Background "owner" "repo" "v1"
         (snd (syncTag memory_dry_action Background "owner" "repo" "v1" empty_remote)))
    = None /\
  remote (snd (syncTag memory_dry_action Background "owner" "repo" "v1"
                 (snd (syncTag memory_dry_action Background "owner" "repo" "v1"
                         empty_remote))))
    !! ("owner", "repo", "refs/tags/v1") = None /\
  calls (trace (snd (syncTag memory_dry_action Background "owner" "repo" "v1"
                       (snd (syncTag memory_dry_action Background "owner" "repo" "v1"
                               empty_remote)))))
    = [CallGetRef "owner" "repo" "tags/v1"; CallGetRef "owner" "repo" "tags/v1"].
Proof. repeat split; vm_compute; reflexivity. Qed.

Lemma syncTag_idempotent_witness :
  exists st1 st2 evs,
    syncTag memory_action Background "owner" "repo" "v1" empty_remote = (None, st1) /\
    syncTag memory_action Background "owner" "repo" "v1" st1 = (None, st2) /\
    remote st1 !! ("owner", "repo", "refs/tags/v1") = Some "abc123" /\
    remote st2 = remote st1 /\
    trace st2 = trace st1 ++ evs /\
    calls evs = [CallGetRef "owner" "repo" "tags/v1";
                 CallUpdateRef "owner" "repo" "tags/v1" (force_to "abc123")].
Proof.
  exact (syncTag_idempotent memory_action (fun w => w) Background "owner" "repo" "v1"
           empty_remote memory_client_Faithful eq_refl).
Defined.


(* ===================================================================== *)
(** * Refs and repositories *)
(* ===================================================================== *)

Section RefsAndRepositories.

Lemma HasPrefix_app p r : strings.HasPrefix (p +:+ r) p = true.
Proof.
  induction p as [|c p IH]; [reflexivity|].
  cbn. now rewrite Ascii.eqb_refl.
Qed.

Lemma slice_from_app p r : strings.slice_from (String.length p) (p +:+ r) = r.
Proof. induction p as [|c p IH]; [reflexivity | exact IH]. Qed.

Lemma HasPrefix_true s p :
  strings.HasPrefix s p = true -> s = p +:+ strings.slice_from (String.length p) s.
Proof.
  revert s. induction p as [|c p IH]; intros s H; [reflexivity|].
  destruct s as [|a s]; [discriminate|]. cbn in H.
  destruct (Ascii.eqb a c) eqn:E; [|discriminate].
  apply Ascii.eqb_eq in E; subst a. cbn. f_equal. now apply IH.
Qed.

(** X1: a ref is accepted exactly when it is [refs/tags/] followed by some
    text, and that text, whatever it is, is the tag; any other ref gives an
    error that holds the ref. *)
Theorem extractTagFromRef_prefix :
  (forall ref tag,
     extractTagFromRef ref = inl tag <-> ref = "refs/tags/" +:+ tag) /\
  (forall ref e,
     extractTagFromRef ref = inr e <->
     strings.HasPrefix ref "refs/tags/" = false /\
     e = fmtError "ref %q is not a tag (expected refs/tags/...)" [ref] None).
Proof.
  split.
  - intros ref tag. unfold extractTagFromRef, strings.TrimPrefix.
    destruct (strings.HasPrefix ref "refs/tags/") eqn:E; cbn [negb]; split.
    + intros H. injection H as <-. now apply HasPrefix_true.
    + intros ->. reflexivity.
    + discriminate.
    + intros ->. now rewrite HasPrefix_app in E.
  - intros ref e. unfold extractTagFromRef.
    destruct (strings.HasPrefix ref "refs/tags/"); cbn [negb]; split.
    + discriminate.
    + intros [H _]; discriminate.
    + intros H. injection H as <-. now split.
    + intros [_ ->]. reflexivity.
Qed.

Lemma append_assoc_byte a c b :
  (a +:+ String c EmptyString) +:+ b = a +:+ String c b.
Proof. induction a as [|x a IH]; cbn; [reflexivity | now rewrite IH]. Qed.

(** What [split_acc] does up to the first separator. *)
Lemma split_acc_first sep cur s :
  strings.split_acc sep cur s =
  match drop_while (fun c => negb (Ascii.eqb c sep)) s with
  | EmptyString => [cur +:+ take_while (fun c => negb (Ascii.eqb c sep)) s]
  | String _ r =>
      (cur +:+ take_while (fun c => negb (Ascii.eqb c sep)) s)
        :: strings.split_acc sep EmptyString r
  end.
Proof.
  revert cur. induction s as [|c s IH]; intros cur; cbn [strings.split_acc].
  - cbn. now rewrite append_nil_r.
  - cbn [take_while drop_while]. destruct (Ascii.eqb c sep) eqn:E; cbn [negb].
    + now rewrite append_nil_r.
    + rewrite IH. destruct (drop_while _ s); now rewrite append_assoc_byte.
Qed.

Lemma split_acc_length sep cur s : 1 <= List.length (strings.split_acc sep cur s).
Proof.
  rewrite split_acc_first. destruct (drop_while _ s); cbn; lia.
Qed.

Lemma is_empty_true s : is_empty s = true <-> s = EmptyString.
Proof. destruct s; cbn; split; congruence. Qed.

(** X2: a repository is accepted exactly when it is an owner, one slash
    and a name, both non-empty and without a slash, and these are the owner
    and the name returned. *)
Theorem parseRepository_owner_name (repo owner name : string) :
  parseRepository repo = inl (owner, name) <->
  repo = owner +:+ "/" +:+ name /\
  owner <> EmptyString /\ name <> EmptyString /\ no_slash owner /\ no_slash name.
Proof.
  unfold parseRepository, strings.Split. rewrite split_acc_first.
  fold not_slash. split.
  - destruct (drop_while not_slash repo) as [|c r] eqn:Ed; [discriminate|].
    rewrite split_acc_first. fold not_slash.
    destruct (drop_while not_slash r) as [|c' r'] eqn:Ed'.
    + cbn [List.length Nat.eqb negb orb nth String.append].
      destruct (is_empty (take_while not_slash repo)) eqn:E1; [discriminate|].
      destruct (is_empty (take_while not_slash r)) eqn:E2; [discriminate|].
      cbn [orb]. intros H. injection H as <- <-.
      assert (c = "/"%char) as ->.
      { apply drop_while_head in Ed. unfold not_slash in Ed.
        apply negb_false_iff in Ed. now apply Ascii.eqb_eq. }
      assert (take_while not_slash r = r) as Hr.
      { pose proof (take_drop_while not_slash r) as H.
        rewrite Ed', append_nil_r in H. exact H. }
      repeat split.
      * rewrite Hr, <- Ed. symmetry. apply take_drop_while.
      * intros H. rewrite H in E1. discriminate.
      * intros H. rewrite H in E2. discriminate.
      * apply all_bytes_take_while.
      * apply all_bytes_take_while.
    + pose proof (split_acc_length "/" EmptyString r') as L.
      cbn [List.length]. destruct (List.length _); [lia|]. discriminate.
  - intros (-> & Ho & Hn & So & Sn).
    change ("/" +:+ name) with (String "/" name).
    destruct (take_while_app not_slash owner "/" name So eq_refl) as [-> ->].
    rewrite split_acc_first. fold not_slash.
    destruct (take_while_all not_slash name Sn) as [-> ->].
    cbn [List.length Nat.eqb negb orb nth String.append].
    apply is_empty_false in Ho, Hn. now rewrite Ho, Hn.
Qed.

Lemma parseRepository_owner_name_witness :
  parseRepository "my-org/my-repo" = inl ("my-org", "my-repo").
Proof.
  apply (proj2 (parseRepository_owner_name "my-org/my-repo" "my-org" "my-repo")).
  repeat split; discriminate.
Defined.

(** X3: the rolling tags of an accepted tag are not accepted themselves, so
    they are neither the tag that was pushed nor each other. *)
Theorem rolling_tags_rejected (tag : string) (sv : SemVer) :
  ParseSemVer tag = inl sv ->
  ParseSemVer (MajorTag sv) = inr (parse_error (MajorTag sv)) /\
  ParseSemVer (MinorTag sv) = inr (parse_error (MinorTag sv)) /\
  MajorTag sv <> tag /\ MinorTag sv <> tag /\ MajorTag sv <> MinorTag sv.
Proof.
  intros H.
  pose proof H as H'.
  apply ParseSemVer_inl in H' as (ma & mi & pa & suf & Hf & _ & ->).
  destruct Hf as (_ & Dma & Dmi & _).
  unfold MajorTag, MinorTag. cbn [Major Minor].
  rewrite Sprintf_major, Sprintf_minor.
  assert (ParseSemVer ("v" +:+ ma) = inr (parse_error ("v" +:+ ma))) as Hmaj.
  { unfold ParseSemVer. rewrite FindStringSubmatch_semverRegex.
    unfold scan_semver. cbn [String.append scan_byte Ascii.eqb Bool.eqb].
    now rewrite (scan_digits_all ma Dma). }
  assert (ParseSemVer ("v" +:+ ma +:+ "." +:+ mi)
          = inr (parse_error ("v" +:+ ma +:+ "." +:+ mi))) as Hmin.
  { unfold ParseSemVer. rewrite FindStringSubmatch_semverRegex.
    unfold scan_semver. cbn [String.append scan_byte Ascii.eqb Bool.eqb].
    rewrite (scan_digits_app ma "." mi Dma eq_refl).
    cbn [scan_byte Ascii.eqb Bool.eqb].
    now rewrite (scan_digits_all mi Dmi). }
  repeat split; try assumption.
  - intros E. rewrite <- E, Hmaj in H. discriminate.
  - intros E. rewrite <- E, Hmin in H. discriminate.
  - intros E. apply (f_equal String.length) in E.
    cbn [String.append String.length] in E. rewrite !length_app in E.
    cbn [String.length] in E. lia.
Qed.

Lemma rolling_tags_rejected_witness :
  ParseSemVer "v1" = inr (parse_error "v1") /\
  ParseSemVer "v1.2" = inr (parse_error "v1.2") /\
  "v1" <> "v1.2.3" /\ "v1.2" <> "v1.2.3" /\ "v1" <> "v1.2".
Proof.
  exact (rolling_tags_rejected "v1.2.3" sv_1_2_3 eq_refl).
Defined.

End RefsAndRepositories.

(* ===================================================================== *)
(** * Further properties of the run *)
(* ===================================================================== *)

Section Runs.

Context {W : Type}.
Implicit Types (a : Action W) (st : State W) (ctx : Context).

#[local] Arguments String.append : simpl never.
#[local] Arguments MajorTag : simpl never.
#[local] Arguments MinorTag : simpl never.

Ltac logged :=
  first [ apply only_logged_refl | apply only_logged_self
        | apply only_logged_log; logged ].

Ltac steps :=
  cbv beta iota zeta delta [bind call emit ret log_Debug log_Info log_Error];
  cbn [remote trace fst snd].

Ltac extends :=
  cbn [remote trace fst snd];
  repeat rewrite <- app_assoc; cbn [app]; reflexivity.

Ltac norm := steps; cbn [app List.length Nat.ltb Nat.leb]; steps.

(** X4: a run whose ref is not a tag ref, whose tag is not a semantic
    version, or whose repository is malformed ends there: it returns that
    very error, makes no call and leaves the remote as it was. *)
Theorem Run_fails_fast a ctx st :
  (forall err,
     extractTagFromRef (GitRef (config a)) = inr err ->
     exists evs,
       Run a ctx st = (Some err, mkState (remote st) (trace st ++ evs)) /\
       calls evs = []) /\
  (forall tag err,
     extractTagFromRef (GitRef (config a)) = inl tag ->
     ParseSemVer tag = inr err ->
     exists evs,
       Run a ctx st = (Some err, mkState (remote st) (trace st ++ evs)) /\
       calls evs = []) /\
  (forall tag sv err,
     extractTagFromRef (GitRef (config a)) = inl tag ->
     ParseSemVer tag = inl sv ->
     IsPrerelease sv && SkipPrereleases (config a) = false ->
     parseRepository (GitHubRepo (config a)) = inr err ->
     exists evs,
       Run a ctx st = (Some err, mkState (remote st) (trace st ++ evs)) /\
       calls evs = []).
Proof.
  split; [|split].
  - intros err Href. unfold Run. cbv zeta. rewrite Href. steps.
    eexists. split; [extends | reflexivity].
  - intros tag err Href Hparse. unfold Run. cbv zeta. rewrite Href, Hparse. steps.
    eexists. split; [extends | reflexivity].
  - intros tag sv err Href Hparse Hskip Hrepo. unfold Run. cbv zeta.
    rewrite Href, Hparse, Hskip, Hrepo. steps.
    eexists. split; [extends | reflexivity].
Qed.

(** The reconciliations of a run that gets as far as them, switch by
    switch. *)
Lemma Run_reconciles a ctx st tag sv owner repo :
  extractTagFromRef (GitRef (config a)) = inl tag ->
  ParseSemVer tag = inl sv ->
  IsPrerelease sv && SkipPrereleases (config a) = false ->
  parseRepository (GitHubRepo (config a)) = inl (owner, repo) ->
  exists st0, only_logged st st0 /\
  forall r1 st1,
    (if SyncMajor (config a)
     then syncTag a ctx owner repo (MajorTag sv) st0 else (None, st0)) = (r1, st1) ->
  exists st1', only_logged st1 st1' /\
  forall r2 st2,
    (if SyncMinor (config a)
     then syncTag a ctx owner repo (MinorTag sv) st1' else (None, st1')) = (r2, st2) ->
  exists st3, only_logged st2 st3 /\
  Run a ctx st =
    (errors.Join (failures "failed to sync major tag %s: %w" (MajorTag sv) r1 ++
                  failures "failed to sync minor tag %s: %w" (MinorTag sv) r2),
     st3).
Proof.
  intros Href Hparse Hskip Hrepo. unfold Run. cbv zeta.
  rewrite Href, Hparse, Hskip, Hrepo.
  destruct (SyncMajor (config a)), (SyncMinor (config a)); norm.
  - match goal with
    | |- context [syncTag a ctx owner repo (MajorTag sv) ?s] => exists s
    end.
    split; [logged|]. intros r1 st1 H1. rewrite H1. destruct r1 as [e1|]; steps;
      (match goal with
       | |- context [syncTag a ctx owner repo (MinorTag sv) ?s] => exists s
       end; (split; [logged|]); intros r2 st2 H2; rewrite H2;
       destruct r2 as [e2|]; norm;
       eexists; refine (conj _ eq_refl); logged).
  - match goal with
    | |- context [syncTag a ctx owner repo (MajorTag sv) ?s] => exists s
    end.
    split; [logged|]. intros r1 st1 H1. rewrite H1. destruct r1 as [e1|]; norm;
      (match goal with
       | |- exists _, _ /\ forall _ _, _ -> exists _, _ /\ (_, ?s) = _ => exists s
       end; (split; [logged|]); intros r2 st2 H2;
       injection H2 as <- <-; eexists; refine (conj _ eq_refl); logged).
  - match goal with
    | |- context [syncTag a ctx owner repo (MinorTag sv) ?s] => exists s
    end.
    split; [logged|]. intros r1 st1 H1. injection H1 as <- <-.
    eexists. split; [apply only_logged_refl|].
    intros r2 st2 H2. rewrite H2. destruct r2 as [e2|]; norm;
      (eexists; refine (conj _ eq_refl); logged).
  - match goal with
    | |- exists _, _ /\ forall _ _, _ -> exists _, _ /\ forall _ _, _ ->
                                        exists _, _ /\ (_, ?s) = _ => exists s
    end.
    split; [logged|]. intros r1 st1 H1. injection H1 as <- <-.
    eexists. split; [apply only_logged_refl|].
    intros r2 st2 H2. injection H2 as <- <-.
    eexists; refine (conj _ eq_refl); logged.
Qed.

(** X5: whatever the switches, a run that gets as far as the
    reconciliations makes the major one if its switch is on, then the minor
    one if its switch is on, and nothing else touches the remote; a switch
    that is off gives no call and no failure, so with both off the run
    succeeds without a call.  The result joins the failures, if any. *)
Theorem Run_switches a ctx st tag sv owner repo :
  extractTagFromRef (GitRef (config a)) = inl tag ->
  ParseSemVer tag = inl sv ->
  IsPrerelease sv && SkipPrereleases (config a) = false ->
  parseRepository (GitHubRepo (config a)) = inl (owner, repo) ->
  exists st0, only_logged st st0 /\
  let '(r1, st1) :=
    if SyncMajor (config a)
    then syncTag a ctx owner repo (MajorTag sv) st0 else (None, st0) in
  exists st1', only_logged st1 st1' /\
  let '(r2, st2) :=
    if SyncMinor (config a)
    then syncTag a ctx owner repo (MinorTag sv) st1' else (None, st1') in
  exists st3, only_logged st2 st3 /\
  Run a ctx st =
    (errors.Join (failures "failed to sync major tag %s: %w" (MajorTag sv) r1 ++
                  failures "failed to sync minor tag %s: %w" (MinorTag sv) r2),
     st3).
Proof.
  intros Href Hparse Hskip Hrepo.
  destruct (Run_reconciles a ctx st tag sv owner repo Href Hparse Hskip Hrepo)
    as (st0 & L0 & K0).
  exists st0. split; [exact L0|].
  destruct (if SyncMajor (config a) then _ else _) as [r1 st1].
  destruct (K0 r1 st1 eq_refl) as (st1' & L1 & K1).
  exists st1'. split; [exact L1|].
  destruct (if SyncMinor (config a) then _ else _) as [r2 st2].
  exact (K1 r2 st2 eq_refl).
Qed.

(** X6: a reconciliation makes one lookup of [tags/<tag>] and then at most
    one other call, which is either the create of [refs/tags/<tag>] at the
    configured commit or the forced update of [tags/<tag>] to it; no call is
    repeated and no other ref is named. *)
Theorem syncTag_calls a ctx owner repo tag st :
  exists evs,
    trace (snd (syncTag a ctx owner repo tag st)) = trace st ++ evs /\
    (calls evs = [CallGetRef owner repo (tag_ref tag)] \/
     calls evs = [CallGetRef owner repo (tag_ref tag);
                  CallCreateRef owner repo (create_at tag (CommitSHA (config a)))] \/
     calls evs = [CallGetRef owner repo (tag_ref tag);
                  CallUpdateRef owner repo (tag_ref tag)
                                (force_to (CommitSHA (config a)))]).
Proof.
  unfold syncTag. rewrite Sprintf_tag_ref, Sprintf_full_tag_ref. steps.
  destruct (GetRef (client a) ctx owner repo (tag_ref tag) (remote st))
    as [[[ref resp] err] w1]; steps.
  destruct (DryRun (config a)), err as [e|]; steps;
    try destruct resp as [r|]; try destruct (negb _); steps.
  all: try match goal with
       | |- context [CreateRef ?c ?x ?o ?r ?cr ?w] =>
           destruct (CreateRef c x o r cr w) as [[[ref' resp'] [e'|]] w2]
       | |- context [UpdateRef ?c ?x ?o ?r ?n ?u ?w] =>
           destruct (UpdateRef c x o r n u w) as [[[ref' resp'] [e'|]] w2]
       end; steps.
  all: eexists; (split; [extends |]).
  all: first [ left; reflexivity | right; left; reflexivity | right; right; reflexivity ].
Qed.

(** On a faithful remote a reconciliation that is not a dry run succeeds
    and leaves the tag at the configured commit, the other refs as they
    were. *)
Lemma syncTag_faithful a (refs : W -> Refs) ctx owner repo tag st :
  Faithful (client a) refs ->
  DryRun (config a) = false ->
  exists st1 evs,
    syncTag a ctx owner repo tag st = (None, st1) /\
    refs (remote st1)
      = <[tag_key owner repo tag := CommitSHA (config a)]> (refs (remote st)) /\
    trace st1 = trace st ++ evs.
Proof.
  intros HF Hdry. unfold tag_key.
  destruct (refs (remote st) !! (owner, repo, full_tag_ref tag)) as [sha|] eqn:Hst.
  - destruct (lookup_present _ _ HF ctx owner repo (tag_ref tag) (remote st) sha Hst)
      as (ref & resp & w1 & Hget & Hw1).
    assert (refs w1 !! (owner, repo, "refs/" +:+ tag_ref tag) = Some sha) as Hs1
      by (rewrite Hw1; exact Hst).
    destruct (update_present _ _ HF ctx owner repo (tag_ref tag)
                (force_to (CommitSHA (config a))) w1 sha Hs1 eq_refl)
      as (ref' & resp' & w2 & Hupd & Hw2).
    destruct (syncTag_present a ctx owner repo tag st ref resp w1 _ _ Hdry Hget Hupd)
      as (evs & Hrun & _).
    eexists _, evs. split; [exact Hrun|]. cbn [remote trace].
    rewrite Hw2, Hw1. auto.
  - destruct (lookup_absent _ _ HF ctx owner repo (tag_ref tag) (remote st) Hst)
      as (ref & r & e & w1 & Hget & H404 & Hw1).
    assert (refs w1 !! (owner, repo,
                        github.CreateRef_Ref (create_at tag (CommitSHA (config a)))) = None)
      as Hst1 by (rewrite Hw1; exact Hst).
    destruct (create_absent _ _ HF ctx owner repo _ w1 Hst1)
      as (ref' & resp' & w2 & Hcre & Hw2).
    destruct (syncTag_absent a ctx owner repo tag st ref r e w1 _ _ Hdry Hget H404 Hcre)
      as (evs & Hrun & _).
    eexists _, evs. split; [exact Hrun|]. cbn [remote trace].
    rewrite Hw2, Hw1. auto.
Qed.

(** On a faithful remote a dry reconciliation succeeds, looks the tag up
    and leaves every ref as it was. *)
Lemma syncTag_faithful_dry a (refs : W -> Refs) ctx owner repo tag st :
  Faithful (client a) refs ->
  DryRun (config a) = true ->
  exists st1 evs,
    syncTag a ctx owner repo tag st = (None, st1) /\
    refs (remote st1) = refs (remote st) /\
    trace st1 = trace st ++ evs /\
    calls evs = [CallGetRef owner repo (tag_ref tag)].
Proof.
  intros HF Hdry.
  unfold syncTag. rewrite Sprintf_tag_ref, Sprintf_full_tag_ref, Hdry.
  destruct (refs (remote st) !! (owner, repo, full_tag_ref tag)) as [sha|] eqn:Hst.
  - destruct (lookup_present _ _ HF ctx owner repo (tag_ref tag) (remote st) sha Hst)
      as (ref & resp & w1 & Hget & Hw1).
    steps. rewrite Hget. steps.
    eexists _, _. split; [reflexivity|]. cbn [remote trace].
    split; [exact Hw1|]. split; [extends | reflexivity].
  - destruct (lookup_absent _ _ HF ctx owner repo (tag_ref tag) (remote st) Hst)
      as (ref & r & e & w1 & Hget & H404 & Hw1).
    steps. rewrite Hget, H404. steps. rewrite Z.eqb_refl. cbn [negb]. steps.
    eexists _, _. split; [reflexivity|]. cbn [remote trace].
    split; [exact Hw1|]. split; [extends | reflexivity].
Qed.

Lemma traced_refl st : traced st st [].
Proof. exists []. now rewrite app_nil_r. Qed.

Lemma traced_trans st st' st'' cs cs' :
  traced st st' cs -> traced st' st'' cs' -> traced st st'' (cs ++ cs').
Proof.
  intros (e1 & H1 & C1) (e2 & H2 & C2). exists (e1 ++ e2).
  rewrite H2, H1, <- app_assoc. split; [reflexivity|].
  unfold calls in *. now rewrite List.filter_app, C1, C2.
Qed.

Lemma only_logged_traced st st' : only_logged st st' -> traced st st' [].
Proof. intros [_ H]. exact H. Qed.

Lemma upsert_again (b1 b2 : bool) (k1 k2 : string * string * string) (v : string)
    (m : Refs) :
  upsert b2 k2 v (upsert b1 k1 v (upsert b2 k2 v (upsert b1 k1 v m)))
  = upsert b2 k2 v (upsert b1 k1 v m).
Proof.
  unfold upsert. destruct b1, b2; try reflexivity.
  - apply map_eq. intros k. rewrite !lookup_insert.
    repeat case_decide; reflexivity.
  - apply map_eq. intros k. rewrite !lookup_insert.
    repeat case_decide; reflexivity.
  - apply map_eq. intros k. rewrite !lookup_insert.
    repeat case_decide; reflexivity.
Qed.

(** A run on a faithful remote, real or dry. *)
Lemma Run_faithful_refs a (refs : W -> Refs) ctx st tag sv owner repo :
  Faithful (client a) refs ->
  extractTagFromRef (GitRef (config a)) = inl tag ->
  ParseSemVer tag = inl sv ->
  IsPrerelease sv && SkipPrereleases (config a) = false ->
  parseRepository (GitHubRepo (config a)) = inl (owner, repo) ->
  exists st',
    Run a ctx st = (None, st') /\
    (DryRun (config a) = false ->
     refs (remote st')
       = upsert (SyncMinor (config a)) (tag_key owner repo (MinorTag sv))
           (CommitSHA (config a))
           (upsert (SyncMajor (config a)) (tag_key owner repo (MajorTag sv))
              (CommitSHA (config a)) (refs (remote st)))) /\
    (DryRun (config a) = true ->
     refs (remote st') = refs (remote st) /\
     traced st st' (lookups (SyncMajor (config a)) owner repo (MajorTag sv) ++
                    lookups (SyncMinor (config a)) owner repo (MinorTag sv))).
Proof.
  intros HF Href Hparse Hskip Hrepo.
  destruct (Run_reconciles a ctx st tag sv owner repo Href Hparse Hskip Hrepo)
    as (st0 & L0 & K0).
  (* the major reconciliation *)
  assert (exists st1,
            (if SyncMajor (config a)
             then syncTag a ctx owner repo (MajorTag sv) st0 else (None, st0))
              = (None, st1) /\
            (DryRun (config a) = false ->
             refs (remote st1)
               = upsert (SyncMajor (config a)) (tag_key owner repo (MajorTag sv))
                   (CommitSHA (config a)) (refs (remote st))) /\
            (DryRun (config a) = true ->
             refs (remote st1) = refs (remote st) /\
             traced st st1 (lookups (SyncMajor (config a)) owner repo (MajorTag sv))))
    as (st1 & H1 & R1 & D1).
  { destruct L0 as [Hr0 Ht0]. unfold upsert, lookups.
    destruct (SyncMajor (config a)).
    - destruct (DryRun (config a)) eqn:Hdry.
      + destruct (syncTag_faithful_dry a refs ctx owner repo (MajorTag sv) st0 HF Hdry)
          as (st1 & evs & Hrun & Hrefs & Htr & Hc).
        exists st1. split; [exact Hrun|]. split; [discriminate|]. intros _.
        split; [now rewrite Hrefs, Hr0|].
        apply (traced_trans st st0 st1 [] _ Ht0). now exists evs.
      + destruct (syncTag_faithful a refs ctx owner repo (MajorTag sv) st0 HF Hdry)
          as (st1 & evs & Hrun & Hrefs & Htr).
        exists st1. split; [exact Hrun|]. split; [|discriminate]. intros _.
        now rewrite Hrefs, Hr0.
    - exists st0. split; [reflexivity|]. split; intros _; [now rewrite Hr0|].
      split; [now rewrite Hr0 | exact Ht0]. }
  destruct (K0 None st1 H1) as (st1' & L1 & K1).
  (* the minor reconciliation *)
  assert (exists st2,
            (if SyncMinor (config a)
             then syncTag a ctx owner repo (MinorTag sv) st1' else (None, st1'))
              = (None, st2) /\
            (DryRun (config a) = false ->
             refs (remote st2)
               = upsert (SyncMinor (config a)) (tag_key owner repo (MinorTag sv))
                   (CommitSHA (config a)) (refs (remote st1))) /\
            (DryRun (config a) = true ->
             refs (remote st2) = refs (remote st1) /\
             traced st1 st2 (lookups (SyncMinor (config a)) owner repo (MinorTag sv))))
    as (st2 & H2 & R2 & D2).
  { destruct L1 as [Hr1 Ht1]. unfold upsert, lookups.
    destruct (SyncMinor (config a)).
    - destruct (DryRun (config a)) eqn:Hdry.
      + destruct (syncTag_faithful_dry a refs ctx owner repo (MinorTag sv) st1' HF Hdry)
          as (st2 & evs & Hrun & Hrefs & Htr & Hc).
        exists st2. split; [exact Hrun|]. split; [discriminate|]. intros _.
        split; [now rewrite Hrefs, Hr1|].
        apply (traced_trans st1 st1' st2 [] _ Ht1). now exists evs.
      + destruct (syncTag_faithful a refs ctx owner repo (MinorTag sv) st1' HF Hdry)
          as (st2 & evs & Hrun & Hrefs & Htr).
        exists st2. split; [exact Hrun|]. split; [|discriminate]. intros _.
        now rewrite Hrefs, Hr1.
    - exists st1'. split; [reflexivity|]. split; intros _; [now rewrite Hr1|].
      split; [now rewrite Hr1 | exact Ht1]. }
  destruct (K1 None st2 H2) as (st3 & L3 & Hrun).
  exists st3. split; [exact Hrun|]. destruct L3 as [Hr3 Ht3]. split.
  - intros Hdry. now rewrite Hr3, (R2 Hdry), (R1 Hdry).
  - intros Hdry. destruct (D1 Hdry) as [E1 T1]. destruct (D2 Hdry) as [E2 T2].
    split; [now rewrite Hr3, E2, E1|].
    pose proof (traced_trans _ _ _ _ _ (traced_trans _ _ _ _ _ T1 T2) Ht3) as T.
    now rewrite app_nil_r in T.
Qed.

(** X7: on a faithful remote, a run that is not a dry run and gets as far
    as the reconciliations succeeds, and afterwards each rolling tag whose
    switch is on points at the configured commit while every other ref of
    the remote is as it was. *)
Theorem Run_faithful a (refs : W -> Refs) ctx st tag sv owner repo :
  Faithful (client a) refs ->
  DryRun (config a) = false ->
  extractTagFromRef (GitRef (config a)) = inl tag ->
  ParseSemVer tag = inl sv ->
  IsPrerelease sv && SkipPrereleases (config a) = false ->
  parseRepository (GitHubRepo (config a)) = inl (owner, repo) ->
  exists st',
    Run a ctx st = (None, st') /\
    refs (remote st')
      = upsert (SyncMinor (config a)) (tag_key owner repo (MinorTag sv))
          (CommitSHA (config a))
          (upsert (SyncMajor (config a)) (tag_key owner repo (MajorTag sv))
             (CommitSHA (config a)) (refs (remote st))).
Proof.
  intros HF Hdry Href Hparse Hskip Hrepo.
  destruct (Run_faithful_refs a refs ctx st tag sv owner repo HF Href Hparse Hskip Hrepo)
    as (st' & Hrun & R & _).
  exists st'. split; [exact Hrun | exact (R Hdry)].
Qed.

(** X8: on a faithful remote, running twice what is not a dry run succeeds
    twice, and the second run leaves the refs of the remote as the first
    run left them. *)
Theorem Run_twice a (refs : W -> Refs) ctx st tag sv owner repo :
  Faithful (client a) refs ->
  DryRun (config a) = false ->
  extractTagFromRef (GitRef (config a)) = inl tag ->
  ParseSemVer tag = inl sv ->
  IsPrerelease sv && SkipPrereleases (config a) = false ->
  parseRepository (GitHubRepo (config a)) = inl (owner, repo) ->
  exists st1 st2,
    Run a ctx st = (None, st1) /\
    Run a ctx st1 = (None, st2) /\
    refs (remote st2) = refs (remote st1).
Proof.
  intros HF Hdry Href Hparse Hskip Hrepo.
  destruct (Run_faithful_refs a refs ctx st tag sv owner repo HF Href Hparse Hskip Hrepo)
    as (st1 & Hrun1 & R1 & _).
  destruct (Run_faithful_refs a refs ctx st1 tag sv owner repo HF Href Hparse Hskip Hrepo)
    as (st2 & Hrun2 & R2 & _).
  exists st1, st2. split; [exact Hrun1|]. split; [exact Hrun2|].
  rewrite (R2 Hdry), (R1 Hdry). apply upsert_again.
Qed.

(** X9: on a faithful remote, a dry run that gets as far as the
    reconciliations succeeds, leaves every ref as it was, and its only
    calls are the lookups of the rolling tags whose switch is on, the major
    one first. *)
Theorem Run_dry_run a (refs : W -> Refs) ctx st tag sv owner repo :
  Faithful (client a) refs ->
  DryRun (config a) = true ->
  extractTagFromRef (GitRef (config a)) = inl tag ->
  ParseSemVer tag = inl sv ->
  IsPrerelease sv && SkipPrereleases (config a) = false ->
  parseRepository (GitHubRepo (config a)) = inl (owner, repo) ->
  exists st',
    Run a ctx st = (None, st') /\
    refs (remote st') = refs (remote st) /\
    traced st st' (lookups (SyncMajor (config a)) owner repo (MajorTag sv) ++
                   lookups (SyncMinor (config a)) owner repo (MinorTag sv)).
Proof.
  intros HF Hdry Href Hparse Hskip Hrepo.
  destruct (Run_faithful_refs a refs ctx st tag sv owner repo HF Href Hparse Hskip Hrepo)
    as (st' & Hrun & _ & D).
  exists st'. split; [exact Hrun | exact (D Hdry)].
Qed.

End Runs.

(* ===================================================================== *)
(** * Properties of the command *)
(* ===================================================================== *)

Section Commands.

Context {W : Type}.
Variable NewClient_WithAuthToken : string -> GitHubClient W.
Variable WithEnterpriseURLs :
  GitHubClient W -> string -> string -> GitHubClient W + error.

#[local] Arguments String.append : simpl never.

Ltac logged :=
  first [ apply only_logged_refl | apply only_logged_self
        | apply only_logged_log; logged ].

Ltac steps :=
  cbv beta iota zeta delta [bind call emit ret log_Debug log_Info log_Error];
  cbn [remote trace fst snd].

#[local] Abbreviation main' := (main NewClient_WithAuthToken WithEnterpriseURLs).
#[local] Abbreviation NewGitHubClient' :=
  (NewGitHubClient NewClient_WithAuthToken WithEnterpriseURLs).

Lemma main_unfold build flags env st :
  showVersion flags = false ->
  main' build flags env st =
  (let st0 :=
     mkState (remote st)
       (trace st ++
        [Log slog.LevelDebug "Starting with configuration"
           [slog.String "version" (Version build);
            slog.String "revision" (Revision build);
            slog.String "build_date" (BuildDate build);
            slog.String "go_version" (GoVersion build);
            slog.String "log_level" (logLevel flags)]]) in
   match Validate (assembled flags env) with
   | Some err =>
       (exit 1,
        mkState (remote st0)
          (trace st0 ++
           [Log slog.LevelError "Configuration validation failed"
              [slog.ErrorText "error" err]]))
   | None =>
       match NewGitHubClient' (GitHubToken (assembled flags env))
               (GitHubEnterpriseURL (assembled flags env)) with
       | inr err =>
           (exit 1,
            mkState (remote st0)
              (trace st0 ++
               [Log slog.LevelError "Failed to create GitHub client"
                  [slog.ErrorText "error" err]]))
       | inl c =>
           let (res, st1) :=
             Run (NewAction c (assembled flags env))
                 (WithTimeout Background five_minutes) st0 in
           match res with
           | Some err =>
               (exit 1,
                mkState (remote st1)
                  (trace st1 ++
                   [Log slog.LevelError "Action failed" [slog.ErrorText "error" err]]))
           | None => (exit 0, st1)
           end
       end
   end).
Proof.
  intros Hshow. unfold main. rewrite Hshow. fold (assembled flags env). steps.
  destruct (Validate (assembled flags env)) as [err|]; [reflexivity|].
  destruct (NewGitHubClient' _ _) as [c|err]; [|reflexivity].
  steps. destruct (Run _ _ _) as [[err|] st1]; reflexivity.
Qed.

(** X10: asked for its version, the command prints it and exits with
    status 0: it validates nothing, logs nothing and calls nothing, whatever
    the other flags and the environment are. *)
Theorem main_version build flags env (st : State W) :
  showVersion flags = true ->
  main' build flags env st =
  ({| printed :=
        "semver-tag-sync-action" +:+ String "010"%char
        ("Version: " +:+ Revision build +:+ " " +:+ Version build +:+ String "010"%char
        ("BuildDate: " +:+ BuildDate build +:+ String "010"%char
        (GoVersion build +:+ String "010"%char EmptyString)));
      code := 0 |}, st).
Proof.
  intros Hshow. unfold main. rewrite Hshow. reflexivity.
Qed.

Lemma Validate_None c :
  Validate c = None ->
  is_empty (GitHubToken c) = false /\ is_empty (GitHubRepo c) = false /\
  is_empty (GitRef c) = false /\ is_empty (CommitSHA c) = false /\
  SyncMajor c || SyncMinor c = true.
Proof.
  unfold Validate.
  destruct (is_empty (GitHubToken c)), (is_empty (GitHubRepo c)),
    (is_empty (GitRef c)), (is_empty (CommitSHA c)),
    (SyncMajor c), (SyncMinor c); cbn; intros H; try discriminate; auto.
Qed.

Lemma getEnvOrDefault_empty env flagValue envVar :
  flagValue = EmptyString -> os.Getenv env envVar = EmptyString ->
  is_empty (getEnvOrDefault env flagValue envVar) = true.
Proof. intros -> H. unfold getEnvOrDefault. cbn. now rewrite H. Qed.

(** X11: when a required value is given neither by its flag nor by its
    environment variable (token, repository, ref or commit), or when both
    sync switches are off, the command stops at the validation: it exits
    with status 1 after two records only, the one it starts with and
    [Configuration validation failed] with the error of [Validate].  This
    is so whatever the library would answer when asked for a client, so no
    client is asked for, and no call reaches the remote. *)
Theorem main_rejects_configuration build flags env (st : State W) :
  showVersion flags = false ->
  (githubToken flags = EmptyString /\ os.Getenv env "GITHUB_TOKEN" = EmptyString) \/
  (githubRepo flags = EmptyString /\ os.Getenv env "GITHUB_REPOSITORY" = EmptyString) \/
  (gitRef flags = EmptyString /\ os.Getenv env "GITHUB_REF" = EmptyString) \/
  (commitSHA flags = EmptyString /\ os.Getenv env "GITHUB_SHA" = EmptyString) \/
  (syncMajor flags = false /\ syncMinor flags = false) ->
  exists err,
    Validate (assembled flags env) = Some err /\
    main' build flags env st =
      (exit 1,
       mkState (remote st)
         (trace st ++
          [Log slog.LevelDebug "Starting with configuration"
             [slog.String "version" (Version build);
              slog.String "revision" (Revision build);
              slog.String "build_date" (BuildDate build);
              slog.String "go_version" (GoVersion build);
              slog.String "log_level" (logLevel flags)];
           Log slog.LevelError "Configuration validation failed"
             [slog.ErrorText "error" err]])).
Proof.
  intros Hshow Hbad. rewrite (main_unfold _ _ _ _ Hshow). cbv zeta.
  destruct (Validate (assembled flags env)) as [err|] eqn:Hv.
  - exists err. split; [reflexivity|]. cbn [remote trace].
    rewrite <- app_assoc. reflexivity.
  - exfalso. apply Validate_None in Hv as (H1 & H2 & H3 & H4 & H5).
    cbn [assembled GitHubToken GitHubRepo GitRef CommitSHA SyncMajor SyncMinor]
      in H1, H2, H3, H4, H5.
    destruct Hbad as [[F E]|[[F E]|[[F E]|[[F E]|[F E]]]]].
    + rewrite (getEnvOrDefault_empty _ _ _ F E) in H1. discriminate.
    + rewrite (getEnvOrDefault_empty _ _ _ F E) in H2. discriminate.
    + rewrite (getEnvOrDefault_empty _ _ _ F E) in H3. discriminate.
    + rewrite (getEnvOrDefault_empty _ _ _ F E) in H4. discriminate.
    + rewrite F, E in H5. discriminate.
Qed.

(** X12: once the configuration is valid, the command exits with status 1
    without a call when the client cannot be made; otherwise it runs the
    action once, on the assembled configuration and under a timeout of five
    minutes, and exits with status 0 when the run returns no error and with
    status 1 when it returns one. *)
Theorem main_exit_code build flags env (st : State W) :
  showVersion flags = false ->
  Validate (assembled flags env) = None ->
  (forall err,
     NewGitHubClient' (GitHubToken (assembled flags env))
       (GitHubEnterpriseURL (assembled flags env)) = inr err ->
     exists evs,
       main' build flags env st = (exit 1, mkState (remote st) (trace st ++ evs)) /\
       calls evs = []) /\
  (forall c,
     NewGitHubClient' (GitHubToken (assembled flags env))
       (GitHubEnterpriseURL (assembled flags env)) = inl c ->
     exists st0, only_logged st st0 /\
     let '(res, st1) :=
       Run (NewAction c (assembled flags env))
           (WithTimeout Background five_minutes) st0 in
     exists st2, only_logged st1 st2 /\
     main' build flags env st =
       (exit (match res with None => 0 | Some _ => 1 end), st2)).
Proof.
  intros Hshow Hv. split.
  - intros err Hc. rewrite (main_unfold _ _ _ _ Hshow). cbv zeta.
    rewrite Hv, Hc. cbn [remote trace]. eexists.
    split; [rewrite <- app_assoc; reflexivity | reflexivity].
  - intros c Hc. rewrite (main_unfold _ _ _ _ Hshow). cbv zeta.
    rewrite Hv, Hc.
    match goal with
    | |- context [Run _ _ ?s] => exists s
    end.
    split; [logged|].
    destruct (Run _ _ _) as [[err|] st1];
      (eexists; refine (conj _ eq_refl); logged).
Qed.

Lemma gitHubClientWrapper_Faithful (c : GitHubClient W) (refs : W -> Refs) :
  Faithful c refs -> Faithful (gitHubClientWrapper c) refs.
Proof.
  intros HF. split; cbn [GetRef CreateRef UpdateRef gitHubClientWrapper].
  - apply (lookup_present _ _ HF).
  - apply (lookup_absent _ _ HF).
  - apply (create_absent _ _ HF).
  - apply (update_present _ _ HF).
Qed.

(** X13: with a valid configuration, no enterprise URL and no dry run,
    against a library whose client is faithful to its remote, the command
    on a tag ref that is accepted and not skipped exits with status 0, and
    afterwards each rolling tag whose switch is on points at the commit
    while every other ref is as it was. *)
Theorem main_synchronises (build : Build) (flags : Flags) (env : gmap string string)
    (st : State W) (refs : W -> Refs) (tag : string) (sv : SemVer)
    (owner repo : string) :
  showVersion flags = false ->
  dryRun flags = false ->
  githubEnterpriseURL flags = EmptyString ->
  Validate (assembled flags env) = None ->
  Faithful (NewClient_WithAuthToken (GitHubToken (assembled flags env))) refs ->
  extractTagFromRef (GitRef (assembled flags env)) = inl tag ->
  ParseSemVer tag = inl sv ->
  IsPrerelease sv && skipPrereleases flags = false ->
  parseRepository (GitHubRepo (assembled flags env)) = inl (owner, repo) ->
  exists st',
    main' build flags env st = (exit 0, st') /\
    refs (remote st')
      = upsert (syncMinor flags) (tag_key owner repo (MinorTag sv))
          (CommitSHA (assembled flags env))
          (upsert (syncMajor flags) (tag_key owner repo (MajorTag sv))
             (CommitSHA (assembled flags env)) (refs (remote st))).
Proof.
  intros Hshow Hdry Hurl Hv HF Href Hparse Hskip Hrepo.
  rewrite (main_unfold _ _ _ _ Hshow). cbv zeta. rewrite Hv.
  unfold NewGitHubClient.
  cbn [GitHubEnterpriseURL assembled]. rewrite Hurl. cbn [is_empty negb].
  match goal with
  | |- context [Run ?a ?ctx ?s] =>
      destruct (Run_faithful_refs a refs ctx s tag sv owner repo
                  (gitHubClientWrapper_Faithful _ _ HF) Href Hparse Hskip Hrepo)
        as (st' & Hrun & R & _)
  end.
  cbn [GitHubToken assembled] in Hrun |- *.
  rewrite Hrun. exists st'. split; [reflexivity|].
  rewrite (R Hdry). reflexivity.
Qed.

End Commands.

(* ===================================================================== *)
(** * Witnesses of the further properties *)
(* ===================================================================== *)

Example TestGetEnvOrDefault :
  getEnvOrDefault {[ "TEST_ENV_VAR" := "env-value" ]} "flag-value" "TEST_ENV_VAR"
    = "flag-value" /\
  getEnvOrDefault {[ "TEST_ENV_VAR" := "env-value" ]} "" "TEST_ENV_VAR" = "env-value" /\
  getEnvOrDefault {[ "TEST_ENV_VAR" := "env-value" ]} "" "NONEXISTENT_VAR" = "".
Proof. repeat split; vm_compute; reflexivity. Qed.

Lemma Run_fails_fast_witness :
  (exists evs,
     Run branch_action Background start
       = (Some (fmtError "ref %q is not a tag (expected refs/tags/...)"
                  ["refs/heads/main"] None), mkState tt evs) /\
     calls evs = []) /\
  (exists evs,
     Run short_tag_action Background start
       = (Some (parse_error "v1.2"), mkState tt evs) /\
     calls evs = []) /\
  (exists evs,
     Run bad_repo_action Background start
       = (Some (fmtError "invalid repository format %q (expected owner/repo)"
                  ["owner/repo/extra"] None), mkState tt evs) /\
     calls evs = []).
Proof.
  split; [|split].
  - exact (proj1 (Run_fails_fast branch_action Background start) _ eq_refl).
  - exact (proj1 (proj2 (Run_fails_fast short_tag_action Background start))
             "v1.2" _ eq_refl eq_refl).
  - exact (proj2 (proj2 (Run_fails_fast bad_repo_action Background start))
             "v1.2.3" sv_1_2_3 _ eq_refl eq_refl eq_refl eq_refl).
Defined.

Lemma Run_switches_witness :
  exists st0, only_logged start st0 /\
  let '(r1, st1) :=
    if SyncMajor (config (switches_action true false))
    then syncTag (switches_action true false) Background "owner" "repo"
           (MajorTag sv_1_2_3) st0
    else (None, st0) in
  exists st1', only_logged st1 st1' /\
  let '(r2, st2) :=
    if SyncMinor (config (switches_action true false))
    then syncTag (switches_action true false) Background "owner" "repo"
           (MinorTag sv_1_2_3) st1'
    else (None, st1') in
  exists st3, only_logged st2 st3 /\
  Run (switches_action true false) Background start =
    (errors.Join
       (failures "failed to sync major tag %s: %w" (MajorTag sv_1_2_3) r1 ++
        failures "failed to sync minor tag %s: %w" (MinorTag sv_1_2_3) r2),
     st3).
Proof.
  exact (Run_switches (switches_action true false) Background start "v1.2.3" sv_1_2_3
           "owner" "repo" eq_refl eq_refl eq_refl eq_refl).
Defined.

Lemma Run_faithful_witness :
  exists st',
    Run (memory_switches_action true true false) Background empty_remote = (None, st') /\
    remote st'
      = upsert true (tag_key "owner" "repo" "v1.2") "abc123"
          (upsert true (tag_key "owner" "repo" "v1") "abc123" ∅).
Proof.
  exact (Run_faithful (memory_switches_action true true false) (fun w => w) Background
           empty_remote "v1.2.3" sv_1_2_3 "owner" "repo"
           memory_client_Faithful eq_refl eq_refl eq_refl eq_refl eq_refl).
Defined.

Lemma Run_twice_witness :
  exists st1 st2,
    Run (memory_switches_action true true false) Background empty_remote = (None, st1) /\
    Run (memory_switches_action true true false) Background st1 = (None, st2) /\
    remote st2 = remote st1.
Proof.
  exact (Run_twice (memory_switches_action true true false) (fun w => w) Background
           empty_remote "v1.2.3" sv_1_2_3 "owner" "repo"
           memory_client_Faithful eq_refl eq_refl eq_refl eq_refl eq_refl).
Defined.

Lemma Run_dry_run_witness :
  exists st',
    Run (memory_switches_action true false true) Background empty_remote = (None, st') /\
    remote st' = ∅ /\
    traced empty_remote st' ([CallGetRef "owner" "repo" "tags/v1"] ++ []).
Proof.
  exact (Run_dry_run (memory_switches_action true false true) (fun w => w) Background
           empty_remote "v1.2.3" sv_1_2_3 "owner" "repo"
           memory_client_Faithful eq_refl eq_refl eq_refl eq_refl eq_refl).
Defined.

Lemma main_version_witness :
  main memory_library memory_enterprise test_build version_flags ∅ empty_remote =
  ({| printed :=
        "semver-tag-sync-action" +:+ String "010"%char
        ("Version: abcdef v1.0.0" +:+ String "010"%char
        ("BuildDate: 2024-01-01" +:+ String "010"%char
        ("go1.22" +:+ String "010"%char EmptyString)));
      code := 0 |}, empty_remote).
Proof.
  exact (main_version memory_library memory_enterprise test_build version_flags ∅
           empty_remote eq_refl).
Defined.

Lemma main_rejects_configuration_witness :
  exists err,
    Validate (assembled enterprise_flags ∅) = Some err /\
    main memory_library refusing_enterprise test_build enterprise_flags ∅ empty_remote
      = (exit 1,
         mkState ∅
           [Log slog.LevelDebug "Starting with configuration"
              [slog.String "version" "v1.0.0"; slog.String "revision" "abcdef";
               slog.String "build_date" "2024-01-01";
               slog.String "go_version" "go1.22"; slog.String "log_level" "info"];
            Log slog.LevelError "Configuration validation failed"
              [slog.ErrorText "error" err]]).
Proof.
  exact (main_rejects_configuration memory_library refusing_enterprise test_build
           enterprise_flags ∅ empty_remote eq_refl
           (or_introl (conj eq_refl eq_refl))).
Defined.

Lemma main_exit_code_witness :
  (exists evs,
     main memory_library refusing_enterprise test_build enterprise_flags workflow_env
          empty_remote
       = (exit 1, mkState ∅ evs) /\
     calls evs = []) /\
  (exists st0, only_logged empty_remote st0 /\
   let '(res, st1) :=
     Run (NewAction (gitHubClientWrapper memory_client)
            (assembled flag_defaults workflow_env))
         (WithTimeout Background five_minutes) st0 in
   exists st2, only_logged st1 st2 /\
   main memory_library memory_enterprise test_build flag_defaults workflow_env
        empty_remote
     = (exit (match res with None => 0 | Some _ => 1 end), st2)).
Proof.
  split.
  - exact (proj1 (main_exit_code memory_library refusing_enterprise test_build
                    enterprise_flags workflow_env empty_remote eq_refl eq_refl)
             _ eq_refl).
  - exact (proj2 (main_exit_code memory_library memory_enterprise test_build
                    flag_defaults workflow_env empty_remote eq_refl eq_refl)
             _ eq_refl).
Defined.

Lemma main_synchronises_witness :
  exists st',
    main memory_library memory_enterprise test_build flag_defaults workflow_env
         empty_remote
      = (exit 0, st') /\
    remote st'
      = upsert true (tag_key "owner" "repo" "v1.2") "abc123"
          (upsert true (tag_key "owner" "repo" "v1") "abc123" ∅).
Proof.
  exact (main_synchronises memory_library memory_enterprise test_build flag_defaults
           workflow_env empty_remote (fun w => w) "v1.2.3" sv_1_2_3 "owner" "repo"
           eq_refl eq_refl eq_refl eq_refl memory_client_Faithful
           eq_refl eq_refl eq_refl eq_refl).
Defined.
